(** * pcdl.timestep: loading one PhysiCell time step

    A shallow embedding of the decode-and-assemble pipeline of
    [pcdl/timestep.py] (function [graphfile_parser] and the methods
    [TimeStep._read_xml], [TimeStep.get_conc_df], [TimeStep.get_cell_df] and
    [TimeStep.get_mesh_mnp_axis]), followed by the properties of the
    specification that are stated about it.

    Conventions of the embedding.
    - A Python [str] is a [string] (the ASCII fragment).
    - A Python [int] is a [Z].  A finite [numpy.float64] is the rational
      [Q] it stands for; the numbers read from the files are finite.  The
      arithmetic of the mesh spacings and of the voxel indices is that of
      float64, with its rounding, its infinities and [nan] (module
      [Float64]); comparisons, minima and maxima are exact; the distances of
      the search for the nearest mesh center are taken without rounding.
    - A raised exception is the [Raise] case of [result]; a loop with a
      fallible body is [for_in].
    - A [dict] whose iteration order matters is an insertion-ordered
      association list ([dict]); the graph dictionary, which is only looked
      up, is a [gmap].
    - What the XML navigator ([xml.etree]) and [scipy.io.loadmat] return is
      an input of the embedded functions. *)

From Stdlib Require Import ZArith QArith Qround Qminmax Qabs Lia Lqa.
From Stdlib Require Import String Ascii List DecimalString DecimalPos.
From Stdlib Require Import Sorted Permutation.
From stdpp Require Import gmap strings list.

Open Scope string_scope.
Open Scope Z_scope.

Set Warnings "-clear-no-such-hyp".

(* ===================================================================== *)
(** ** Python primitives *)
(* ===================================================================== *)

Module Py.

(** The exceptions the embedded code can raise.  [SystemExit] is what
    [sys.exit] raises. *)
Inductive exn : Set :=
| AttributeError
| KeyError
| OverflowError
| SystemExit
| ValueError.

Inductive result (A : Type) : Type :=
| Ok (a : A)
| Raise (e : exn).
Arguments Ok {A} a.
Arguments Raise {A} e.

#[export] Instance result_ret : MRet result := fun A a => Ok a.
#[export] Instance result_bind : MBind result := fun A B f m =>
  match m with
  | Ok a => f a
  | Raise e => Raise e
  end.
#[export] Instance result_fmap : FMap result := fun A B f m =>
  match m with
  | Ok a => Ok (f a)
  | Raise e => Raise e
  end.

(** [for x in l: st = body(st, x)], stopping at the first exception. *)
Fixpoint for_in {A S : Type} (body : S -> A -> result S) (st : S) (l : list A)
  : result S :=
  match l with
  | [] => Ok st
  | x :: l' => st' ← body st x; for_in body st' l'
  end.

(** [[f(x) for x in l]], stopping at the first exception. *)
Fixpoint traverse {A B : Type} (f : A -> result B) (l : list A) : result (list B) :=
  match l with
  | [] => Ok []
  | x :: l' => y ← f x; ys ← traverse f l'; Ok (y :: ys)
  end.

(** *** Strings *)

(** The ASCII characters [str.isspace] accepts: tab, line feed, vertical
    tab, form feed, carriage return, the four separators 28-31 and the
    space. *)
Definition is_space (c : ascii) : bool :=
  let n := nat_of_ascii c in
  ((9 <=? n)%nat && (n <=? 13)%nat) || ((28 <=? n)%nat && (n <=? 32)%nat).

Definition is_empty (s : string) : bool :=
  match s with
  | EmptyString => true
  | String _ _ => false
  end.

Fixpoint lstrip (s : string) : string :=
  match s with
  | EmptyString => EmptyString
  | String c s' => if is_space c then lstrip s' else s
  end.

Fixpoint rstrip (s : string) : string :=
  match s with
  | EmptyString => EmptyString
  | String c s' =>
      let r := rstrip s' in
      if is_space c && is_empty r then EmptyString else String c r
  end.

(** [s.strip()] *)
Definition strip (s : string) : string := rstrip (lstrip s).

(** [s.split(sep)] for a one-character separator: never an empty list. *)
Fixpoint split (sep : ascii) (s : string) : list string :=
  match s with
  | EmptyString => [EmptyString]
  | String c s' =>
      if Ascii.eqb c sep then EmptyString :: split sep s'
      else match split sep s' with
           | h :: t => String c h :: t
           | [] => [String c EmptyString]
           end
  end.

(** [sep.join(l)] *)
Fixpoint join (sep : string) (l : list string) : string :=
  match l with
  | [] => EmptyString
  | [s] => s
  | s :: l' => s +:+ sep +:+ join sep l'
  end.

Definition digit_of (c : ascii) : option Z :=
  let n := nat_of_ascii c in
  if (48 <=? n)%nat && (n <=? 57)%nat then Some (Z.of_nat n - 48) else None.

(** The digit part of an integer literal: decimal digits, where single
    underscores may stand between two digits. [prev] tells whether the
    character before was a digit. *)
Fixpoint int_digits (acc : Z) (prev : bool) (s : string) : result Z :=
  match s with
  | EmptyString => if prev then Ok acc else Raise ValueError
  | String c s' =>
      if Ascii.eqb c "_" then
        if prev then int_digits acc false s' else Raise ValueError
      else
        match digit_of c with
        | Some d => int_digits (10 * acc + d) true s'
        | None => Raise ValueError
        end
  end.

(** The white space that [int] skips around a numeral in an ASCII string:
    tab, line feed, vertical tab, form feed, carriage return and the space.
    Unlike [str.strip], [int] does not skip the separators 28-31. *)
Definition is_int_space (c : ascii) : bool :=
  let n := nat_of_ascii c in
  ((9 <=? n)%nat && (n <=? 13)%nat) || (n =? 32)%nat.

Fixpoint int_lstrip (s : string) : string :=
  match s with
  | EmptyString => EmptyString
  | String c s' => if is_int_space c then int_lstrip s' else s
  end.

Fixpoint int_rstrip (s : string) : string :=
  match s with
  | EmptyString => EmptyString
  | String c s' =>
      let r := int_rstrip s' in
      if is_int_space c && is_empty r then EmptyString else String c r
  end.

(** [int(s)] for a string [s]: the white space around the numeral is
    skipped, then an optional sign and the digits.  The limit that the
    interpreter can put on the number of digits
    ([sys.set_int_max_str_digits]) is not part of the function. *)
Definition py_int (s : string) : result Z :=
  match int_rstrip (int_lstrip s) with
  | String "+" r => int_digits 0 false r
  | String "-" r => Z.opp <$> int_digits 0 false r
  | r => int_digits 0 false r
  end.

(** [str(i)] for an integer [i]; as for [int], without the limit the
    interpreter can put on the number of digits. *)
Definition py_str (i : Z) : string := NilEmpty.string_of_int (Z.to_int i).

Fixpoint zeros (n : nat) : string :=
  match n with
  | O => EmptyString
  | S n' => String "0" (zeros n')
  end.

(** [s.zfill(width)] for a string [s] without sign. *)
Definition zfill (width : nat) (s : string) : string :=
  zeros (width - String.length s) +:+ s.

(** [range(n)]: empty when [n <= 0]. *)
Definition range (n : Z) : list Z := Z.of_nat <$> seq 0 (Z.to_nat n).

(** *** Insertion-ordered dictionaries with string keys *)

Definition dict (V : Type) : Type := list (string * V).

(** [d.update({k : v})]: an existing key keeps its place. *)
Fixpoint dict_update {V : Type} (k : string) (v : V) (d : dict V) : dict V :=
  match d with
  | [] => [(k, v)]
  | (k', v') :: d' =>
      if String.eqb k k' then (k', v) :: d' else (k', v') :: dict_update k v d'
  end.

Fixpoint dict_get {V : Type} (k : string) (d : dict V) : option V :=
  match d with
  | [] => None
  | (k', v') :: d' => if String.eqb k k' then Some v' else dict_get k d'
  end.

Definition dict_keys {V : Type} (d : dict V) : list string := fst <$> d.

Fixpoint insert_by_key {A : Type} (x : Z * A) (l : list (Z * A)) : list (Z * A) :=
  match l with
  | [] => [x]
  | y :: l' => if fst x <=? fst y then x :: l else y :: insert_by_key x l'
  end.

(** [sorted(l, key=...)] on items paired with their keys: a stable sort. *)
Definition sort_by_key {A : Type} (l : list (Z * A)) : list (Z * A) :=
  foldr insert_by_key [] l.

(** [[d[k] for k in sorted(d.keys(), key=int)]] *)
Definition values_sorted_by_int_key {V : Type} (d : dict V) : result (list V) :=
  keyed ← traverse (fun kv => i ← py_int (fst kv); Ok (i, snd kv)) d;
  Ok (snd <$> sort_by_key keyed).

End Py.
Import Py.

(* ===================================================================== *)
(** ** Graph decoder: [graphfile_parser] *)
(* ===================================================================== *)

Module Graph.

(** The body of the loop of [graphfile_parser] for one line of the file:
    the key and the set of connected identifiers it adds. *)
Definition parse_line (s_line : string) : result (Z * gset Z) :=
  match split ":" (strip s_line) with
  | [s_key; s_value] =>
      ei_value ← (if is_empty (strip s_value) then Ok ∅
                  else list_to_set <$> traverse py_int (split "," s_value));
      i_key ← py_int s_key;
      Ok (i_key, ei_value)
  | _ => Raise ValueError
  end.

(** [graphfile_parser], on the lines the file object yields. *)
Definition graphfile_parser (lines : list string) : result (gmap Z (gset Z)) :=
  for_in (fun dei_graph s_line =>
            kv ← parse_line s_line;
            Ok (<[kv.1 := kv.2]> dei_graph))
         ∅ lines.

End Graph.

(* ===================================================================== *)
(** ** Float arithmetic: [numpy.float64] *)
(* ===================================================================== *)

Module Float64.

Open Scope Q_scope.

(** The value of a float64 expression: a finite number, which is a
    rational, an infinity (of either sign) or a [nan]. *)
Inductive f64 : Type :=
| Fin (q : Q)
| Inf
| NaN.

(** The nearest integer, a tie going to the even one. *)
Definition rint (r : Q) : Z :=
  let i := Qfloor r in
  match ((r - inject_Z i) ?= (1 # 2))%Q with
  | Lt => i
  | Gt => (i + 1)%Z
  | Eq => if Z.even i then i else (i + 1)%Z
  end.

(** [2^k], also for a negative [k]. *)
Definition pow2 (k : Z) : Q :=
  match k with
  | Z0 => 1
  | Zpos p => inject_Z (2 ^ Zpos p)
  | Zneg p => 1 # (2 ^ p)
  end.

(** [floor(log2(q))] for a positive [q]. *)
Definition floor_log2 (q : Q) : Z :=
  let k := (Z.log2 (Qnum q) - Z.log2 (Zpos (Qden q)))%Z in
  if Qle_bool (pow2 k) q then k else (k - 1)%Z.

(** The float64 nearest to the real number [q], a tie going to the even
    significand: 53 significant bits, no exponent below that of the
    subnormal numbers, an infinity from [2^1024] on. *)
Definition fl (q : Q) : f64 :=
  if Qeq_bool q 0 then Fin 0
  else
    let a := Qabs q in
    let e := Z.max (floor_log2 a - 52) (-1074) in
    let v := Qred (inject_Z (rint (a / pow2 e)) * pow2 e) in
    if Qle_bool (pow2 1024) v then Inf
    else Fin (if Qle_bool 0 q then v else - v).

(** The arithmetic of IEEE 754, as numpy does it on float64 scalars and
    arrays: an operation gives the float64 nearest to its exact result, a
    division by zero an infinity or a [nan], and none of them raises. *)
Definition fsub (a b : Q) : f64 := fl (a - b).

Definition fmul (a b : f64) : f64 :=
  match a, b with
  | NaN, _ | _, NaN => NaN
  | Fin x, Fin y => fl (x * y)
  | Inf, Fin y | Fin y, Inf => if Qeq_bool y 0 then NaN else Inf
  | Inf, Inf => Inf
  end.

Definition fdiv (a b : f64) : f64 :=
  match a, b with
  | NaN, _ | _, NaN => NaN
  | Inf, Inf => NaN
  | Inf, Fin _ => Inf
  | Fin _, Inf => Fin 0
  | Fin x, Fin y =>
      if Qeq_bool y 0 then (if Qeq_bool x 0 then NaN else Inf)
      else fl (x / y)
  end.

(** A Python [int] as a float64. *)
Definition of_int (i : Z) : f64 := fl (inject_Z i).

End Float64.

(* ===================================================================== *)
(** ** Mesh geometry builder: the mesh part of [TimeStep._read_xml] *)
(* ===================================================================== *)

Module Mesh.

Import Float64.
Open Scope Q_scope.

Fixpoint insert_unique (x : Q) (l : list Q) : list Q :=
  match l with
  | [] => [x]
  | y :: l' =>
      match x ?= y with
      | Lt => x :: l
      | Eq => l
      | Gt => y :: insert_unique x l'
      end
  end.

(** [np.unique(a)]: the sorted distinct values of [a]. *)
Definition np_unique (a : list Q) : list Q := foldr insert_unique [] a.

(** [a.min()] and [a.max()]: [ValueError] on an array of size zero. *)
Definition np_min (a : list Q) : result Q :=
  match a with
  | [] => Raise ValueError
  | x :: l => Ok (foldl Qmin x l)
  end.

Definition np_max (a : list Q) : result Q :=
  match a with
  | [] => Raise ValueError
  | x :: l => Ok (foldl Qmax x l)
  end.

(** [set(a)] for floats: one representative per value, in the order of the
    first occurrences. *)
Fixpoint py_set (a : list Q) : list Q :=
  match a with
  | [] => []
  | x :: l => x :: filter (fun y => negb (Qeq_bool x y)) (py_set l)
  end.

(** The entries of [d_mcds['mesh']] that the later stages read.  The three
    axes m, n, p are the components of each triple.  The coordinates and
    the volume are finite floats read from the files; the spacings are
    computed. *)
Record mesh : Type := {
  mnp_axis : list Q * list Q * list Q;
  mnp_range : (Q * Q) * (Q * Q) * (Q * Q);
  ijk_range : (Z * Z) * (Z * Z) * (Z * Z);
  volume : Q;
  mnp_spacing : f64 * f64 * f64;
}.

(** [(axis.min(), axis.max())] *)
Definition axis_range (ar_axis : list Q) : result (Q * Q) :=
  r_min ← np_min ar_axis; r_max ← np_max ar_axis; Ok (r_min, r_max).

(** [(0, len(axis) - 1)] *)
Definition voxel_range (ar_axis : list Q) : Z * Z :=
  (0%Z, (Z.of_nat (length ar_axis) - 1)%Z).

(** The volume row of the mesh matrix: [sys.exit] unless [set(ar_volume)]
    has exactly one element, else [ar_volume[0]]. *)
Definition voxel_volume (ar_volume : list Q) : result Q :=
  if negb (length (py_set ar_volume) =? 1)%nat then Raise SystemExit
  else match ar_volume with
       | r :: _ => Ok r
       | [] => Raise SystemExit
       end.

(** The spacing [dm] (and [dn]) of the first two axes, lines 2549-2557:
    [np.float64(1.0)], or the float quotient of the float difference by the
    integer [shape[0] - 1]. *)
Definition axis_spacing (tr_range : Q * Q) (ar_axis : list Q) : f64 :=
  if (length (py_set [tr_range.1; tr_range.2]) =? 1)%nat then Fin 1
  else fdiv (fsub tr_range.2 tr_range.1)
            (of_int (Z.of_nat (length ar_axis) - 1)).

(** The mesh section of [_read_xml]: [ar_x_coor], [ar_y_coor], [ar_z_coor]
    are the coordinate arrays of the XML mesh node and [ar_volume] is the
    fourth row of the mesh matrix file. *)
Definition read_mesh (ar_x_coor ar_y_coor ar_z_coor ar_volume : list Q)
  : result mesh :=
  let ar_m_axis := np_unique ar_x_coor in
  let ar_n_axis := np_unique ar_y_coor in
  let ar_p_axis := np_unique ar_z_coor in
  tr_m_range ← axis_range ar_m_axis;
  tr_n_range ← axis_range ar_n_axis;
  tr_p_range ← axis_range ar_p_axis;
  r_volume ← voxel_volume ar_volume;
  let dm := axis_spacing tr_m_range ar_m_axis in
  let dn := axis_spacing tr_n_range ar_n_axis in
  let dp := fdiv (Fin r_volume) (fmul dm dn) in
  Ok {| mnp_axis := (ar_m_axis, ar_n_axis, ar_p_axis);
        mnp_range := (tr_m_range, tr_n_range, tr_p_range);
        ijk_range := (voxel_range ar_m_axis, voxel_range ar_n_axis,
                      voxel_range ar_p_axis);
        volume := r_volume;
        mnp_spacing := (dm, dn, dp) |}.

(** [np.round(r)] for a finite float [r]: the nearest integer, a tie going
    to the even one.  The result is a float with an integer value. *)
Definition np_round (r : Q) : Z := rint r.

(** [astype(int)] on a finite float of integer value: the cast to int64.
    A value that int64 does not hold becomes [-2^63], the result of the
    conversion instruction of x86-64, which numpy passes on. *)
Definition astype_int (i : Z) : Z :=
  if ((- 2 ^ 63 <=? i) && (i <? 2 ^ 63))%Z then i else (- 2 ^ 63)%Z.

(** One of the columns [voxel_i], [voxel_j], [voxel_k] for one agent, lines
    2838-2846: the float quotient, rounded and cast, then the two
    assignments that cut it to the range.  The cast of a column that holds
    an infinity or a [nan] raises pandas' [IntCastingNaNError], a
    [ValueError]. *)
Definition voxel_index (r_position r_min : Q) (r_spacing : f64)
    (ti_range : Z * Z) : result Z :=
  match fdiv (fsub r_position r_min) r_spacing with
  | Fin r =>
      let i := astype_int (np_round r) in
      let i := if (i >? ti_range.2)%Z then ti_range.2 else i in
      Ok (if (i <? ti_range.1)%Z then ti_range.1 else i)
  | Inf | NaN => Raise ValueError
  end.

(** The three voxel columns of [df_voxel] for the agent at
    [(position_x, position_y, position_z)]. *)
Definition voxel_ijk (m : mesh) (position : Q * Q * Q) : result (Z * Z * Z) :=
  let '(dm, dn, dp) := mnp_spacing m in
  let '(tr_m_range, tr_n_range, tr_p_range) := mnp_range m in
  let '(tr_i_range, tr_j_range, tr_k_range) := ijk_range m in
  let '(x, y, z) := position in
  i ← voxel_index x tr_m_range.1 dm tr_i_range;
  j ← voxel_index y tr_n_range.1 dn tr_j_range;
  k ← voxel_index z tr_p_range.1 dp tr_k_range;
  Ok (i, j, k).

End Mesh.

(* ===================================================================== *)
(** ** Cell data: label schema, agent types and the agent matrix *)
(* ===================================================================== *)

Module Cell.

(** *** The constant variable name sets *)

Definition es_var_subs : list string :=
  [ "chemotactic_sensitivities";
    "secretion_rates";
    "uptake_rates";
    "saturation_densities";
    "net_export_rates";
    "internalized_total_substrates";
    "fraction_released_at_death";
    "fraction_transferred_when_ingested" ].

Definition es_var_cell : list string :=
  [ "cell_adhesion_affinities";
    "live_phagocytosis_rates";
    "attack_rates";
    "immunogenicities";
    "fusion_rates";
    "transformation_rates" ].

Definition es_var_death : list string := [ "death_rates" ].

Definition es_var_spatial : list string :=
  [ "migration_bias_direction";
    "motility_bias_direction";
    "motility_vector";
    "orientation";
    "position";
    "velocity" ].

(** [s in es] for one of the sets above. *)
Definition is_in (s : string) (es : list string) : bool := existsb (String.eqb s) es.

(** *** The label nodes of the XML *)

(** A [label] node of the cell population: its text, [int] of its [size]
    attribute and its [units] attribute. *)
Record label : Type := {
  text : string;
  size : Z;
  units : string;
}.

(** The running state of the label loop: [ls_variable] and
    [d_mcds['raw_cell']['units']]. *)
Definition schema : Type := list string * dict string.

(** [ls_variable.append(s); units.update({s : s_unit})] *)
Definition add_column (s_unit : string) (st : schema) (s : string) : schema :=
  ((st.1 ++ [s])%list, dict_update s s_unit st.2).

(** The body of the loop over the label nodes, lines 2727-2785. *)
Definition read_label (ds_substrate ds_celltype : dict string)
    (st : schema) (x_label : label) : result schema :=
  let s_variable := text x_label in
  let i_variable := size x_label in
  let s_unit := units x_label in
  if is_in s_variable es_var_subs then
    if (0 <? length ds_substrate)%nat then
      ls_substrate ← values_sorted_by_int_key ds_substrate;
      Ok (foldl (fun st s_substrate =>
                   add_column s_unit st (s_substrate +:+ "_" +:+ s_variable))
                st ls_substrate)
    else
      let ls_substrate := py_str <$> range i_variable in
      Ok (foldl (fun st s_substrate =>
                   add_column s_unit st (s_variable +:+ "_" +:+ s_substrate))
                st ls_substrate)
  else if is_in s_variable es_var_cell then
    if (0 <? length ds_celltype)%nat then
      ls_celltype ← values_sorted_by_int_key ds_celltype;
      Ok (foldl (fun st s_celltype =>
                   add_column s_unit st (s_celltype +:+ "_" +:+ s_variable))
                st ls_celltype)
    else
      let ls_celltype := py_str <$> range i_variable in
      Ok (foldl (fun st s_celltype =>
                   add_column s_unit st (s_variable +:+ "_" +:+ s_celltype))
                st ls_celltype)
  else if is_in s_variable es_var_death then
    Ok (foldl (fun st i_deathrate =>
                 add_column s_unit st (s_variable +:+ "_" +:+ py_str i_deathrate))
              st (range i_variable))
  else if is_in s_variable es_var_spatial then
    Ok (foldl (fun st s_axis => add_column s_unit st (s_variable +:+ s_axis))
              st ["_x"; "_y"; "_z"])
  else
    let ls_variable :=
      if 1 <? i_variable then
        foldl (fun ls i_n =>
                 (ls ++ [s_variable +:+ "_" +:+ zfill 3 (py_str i_n)])%list)
              st.1 (range i_variable)
      else (st.1 ++ [s_variable])%list in
    Ok (ls_variable, dict_update s_variable s_unit st.2).

(** The loop over the label nodes: the expanded column names, in order,
    and the unit dictionary. *)
Definition read_labels (ds_substrate ds_celltype : dict string)
    (labels : list label) : result schema :=
  for_in (read_label ds_substrate ds_celltype) ([], []) labels.

(** *** Agent type labels *)

(** The state of the agent type resolution: [d_mcds['cell']['ds_celltype']]
    and the flag [b_celltype]. *)
Definition celltype_state : Type := dict string * bool.

(** The loop [for ...: ds_celltype.update({s_id : s_celltype})]. *)
Definition update_all (ds : dict string) (items : list (string * string))
  : dict string :=
  foldl (fun ds kv => dict_update kv.1 kv.2 ds) ds items.

(** Lines 2399-2414.  [settingxml] is [None] when [self.settingxml] is
    [None] or [False], and else the [(ID, name)] attributes of the
    [cell_definition] nodes of the settings document. *)
Definition read_settingxml (settingxml : option (list (string * string)))
    (st : celltype_state) : celltype_state :=
  match settingxml with
  | Some definitions => (update_all st.1 definitions, true)
  | None => st
  end.

(** Lines 2703-2711.  [cell_types] is [None] when the output XML has no
    [cell_types] node (the [AttributeError] is caught), and else the
    [(ID, text)] of its [type] nodes. *)
Definition read_cell_types (cell_types : option (list (string * string)))
    (st : celltype_state) : celltype_state :=
  match cell_types with
  | Some types => (update_all st.1 types, true)
  | None => st
  end.

(** [x_label.tex]: an [Element] has no attribute [tex]. *)
Definition tex (x_label : label) : result string := Raise AttributeError.

(** Lines 2714-2722: the positional mapping read from the size of a label
    of [es_var_cell]. *)
Definition read_celltype_labels (labels : list label) (st : celltype_state)
  : result celltype_state :=
  if negb st.2 then
    for_in (fun st x_label =>
              s_variable ← tex x_label;
              if is_in s_variable es_var_cell then
                Ok (foldl (fun ds i_id => dict_update (py_str i_id) (py_str i_id) ds)
                          st.1 (range (size x_label)),
                    true)
              else Ok st)
           st labels
  else Ok st.

(** [int(r)] for a float: the fraction is cut off. *)
Definition int_of_float (r : Q) : Z := Z.quot (Qnum r) (Zpos (Qden r)).

(** [ls.index(s)]: [ValueError] when [s] is not in the list. *)
Fixpoint list_index (s : string) (ls : list string) : result nat :=
  match ls with
  | [] => Raise ValueError
  | s' :: ls' => if String.eqb s s' then Ok O else S <$> list_index s ls'
  end.

(** Lines 2803-2807: the mapping read from the values of the [cell_type]
    row of the matrix.  The set is gone through in the order of the first
    occurrences. *)
Definition read_celltype_column (ls_variable : list string)
    (ar_cell : list (list Q)) (st : celltype_state) : result celltype_state :=
  if negb st.2 then
    i_row ← list_index "cell_type" ls_variable;
    Ok (foldl (fun ds r_celltype =>
                 let s_celltype := py_str (int_of_float r_celltype) in
                 dict_update s_celltype s_celltype ds)
              st.1 (Mesh.py_set (nth i_row ar_cell [])),
        true)
  else Ok st.

(** *** The agent matrix *)

(** Lines 2788-2796.  [loadmat] is what [io.loadmat(...)['cells']] gives:
    the rows of the matrix, or the [ValueError] of a corrupt file, for which
    [np.empty([len(ls_variable), 0])] is taken. *)
Definition load_cells (loadmat : result (list (list Q))) (ls_variable : list string)
  : result (list (list Q)) :=
  match loadmat with
  | Raise ValueError => Ok (replicate (length ls_variable) [])
  | r => r
  end.

(** Lines 2798-2800: [ar_cell.shape[0] != len(ls_variable)] is fatal. *)
Definition check_shape (ar_cell : list (list Q)) (ls_variable : list string)
  : result unit :=
  if negb (length ar_cell =? length ls_variable)%nat then Raise SystemExit
  else Ok tt.

(** Lines 2810-2812: [d_mcds['raw_cell']['data']]. *)
Definition store_data (ls_variable : list string) (ar_cell : list (list Q))
  : dict (list Q) :=
  foldl (fun d i_col =>
           dict_update (nth i_col ls_variable "") (nth i_col ar_cell []) d)
        [] (seq 0 (length ls_variable)).

(** What the cell part of [_read_xml] has built when the data frame
    assembly starts. *)
Record cell_data : Type := {
  ds_celltype : dict string;
  ls_celltype : list string;
  ls_variable : list string;
  ds_unit : dict string;
  ar_cell : list (list Q);
  data : dict (list Q);
}.

(** The agent type tables read before the label loop: lines 2399-2414 and
    2701-2722, in the order in which they are run. *)
Definition read_celltype_tables
    (settingxml cell_types : option (list (string * string)))
    (labels : list label) : result celltype_state :=
  let st := read_settingxml settingxml ([], false) in
  let st := read_cell_types cell_types st in
  read_celltype_labels labels st.

(** The cell part of [_read_xml] up to the list of agent type labels (line
    2819). *)
Definition read_cells (settingxml cell_types : option (list (string * string)))
    (ds_substrate : dict string) (labels : list label)
    (loadmat : result (list (list Q))) : result cell_data :=
  st ← read_celltype_tables settingxml cell_types labels;
  sch ← read_labels ds_substrate st.1 labels;
  ar ← load_cells loadmat sch.1;
  _ ← check_shape ar sch.1;
  st ← read_celltype_column sch.1 ar st;
  ls ← values_sorted_by_int_key st.1;
  Ok {| ds_celltype := st.1;
        ls_celltype := ls;
        ls_variable := sch.1;
        ds_unit := sch.2;
        ar_cell := ar;
        data := store_data sch.1 ar |}.

End Cell.

(* ===================================================================== *)
(** ** Data frames: [TimeStep.get_conc_df] and [TimeStep.get_cell_df] *)
(* ===================================================================== *)

Module Frame.

(** A value held by a data frame, by dtype. *)
Inductive value : Type :=
| VFloat (r : Q)
| VInt (i : Z)
| VStr (s : string)
| VBool (b : bool).

Definition value_eqb (a b : value) : bool :=
  match a, b with
  | VFloat r1, VFloat r2 => Qeq_bool r1 r2
  | VInt i1, VInt i2 => (i1 =? i2)%Z
  | VStr s1, VStr s2 => String.eqb s1 s2
  | VBool b1, VBool b2 => Bool.eqb b1 b2
  | _, _ => false
  end.

(** The order used to sort a column; the values of a column share a dtype. *)
Definition value_leb (a b : value) : bool :=
  match a, b with
  | VFloat r1, VFloat r2 => Qle_bool r1 r2
  | VInt i1, VInt i2 => (i1 <=? i2)%Z
  | VStr s1, VStr s2 => String.leb s1 s2
  | VBool b1, VBool b2 => implb b1 b2
  | _, _ => true
  end.

(** A row: its index label and its values, one per column. *)
Definition row : Type := value * list value.

Record dataframe : Type := {
  index_name : string;
  columns : list string;
  rows : list row;
}.

(** The place of a column label, if it is one. *)
Fixpoint position (s : string) (ls : list string) : option nat :=
  match ls with
  | [] => None
  | s' :: ls' => if String.eqb s s' then Some O else S <$> position s ls'
  end.

(** [df.loc[:, s_column]]: [KeyError] for an unknown label. *)
Definition loc_column (df : dataframe) (s_column : string) : result (list value) :=
  match position s_column (columns df) with
  | Some i => Ok ((fun r : row => nth i r.2 (VFloat 0)) <$> rows df)
  | None => Raise KeyError
  end.

(** [set(se)] for a column: one representative per value. *)
Fixpoint py_set (l : list value) : list value :=
  match l with
  | [] => []
  | x :: l' => x :: filter (fun y => negb (value_eqb x y)) (py_set l')
  end.

(** The values of a row at the columns that [keep] accepts. *)
Definition select (keep : string -> bool) (ls_column : list string)
    (values : list value) : list value :=
  snd <$> filter (fun cv : string * value => keep cv.1) (zip ls_column values).

(** [df.drop(es_delete, axis=1, inplace=True)] *)
Definition drop (es_delete : gset string) (df : dataframe) : dataframe :=
  let keep s := bool_decide (s ∉ es_delete) in
  {| index_name := index_name df;
     columns := filter (fun s => keep s = true) (columns df);
     rows := (fun r : row => (r.1, select keep (columns df) r.2)) <$> rows df |}.

(** What a label of [sort_values] reads in a row: a column or the index. *)
Definition sort_key (df : dataframe) (s : string) : result (row -> value) :=
  match position s (columns df) with
  | Some i =>
      if String.eqb s (index_name df) then Raise ValueError
      else Ok (fun r : row => nth i r.2 (VFloat 0))
  | None =>
      if String.eqb s (index_name df) then Ok (fun r : row => r.1)
      else Raise KeyError
  end.

(** The order on key tuples, first key first. *)
Fixpoint keys_leb (k1 k2 : list value) : bool :=
  match k1, k2 with
  | a :: k1', b :: k2' =>
      if value_eqb a b then keys_leb k1' k2' else value_leb a b
  | _, _ => true
  end.

Fixpoint insert_row (key : row -> list value) (r : row) (l : list row) : list row :=
  match l with
  | [] => [r]
  | r' :: l' =>
      if keys_leb (key r) (key r') then r :: l else r' :: insert_row key r l'
  end.

(** [df.sort_values(ls_key, axis=0, inplace=True)]: rows by ascending key,
    rows of equal key in their former order. *)
Definition sort_values (ls_key : list string) (df : dataframe) : result dataframe :=
  keys ← traverse (sort_key df) ls_key;
  let key r := (fun k : row -> value => k r) <$> keys in
  Ok {| index_name := index_name df;
        columns := columns df;
        rows := foldr (insert_row key) [] (rows df) |}.

(** [df.reset_index(drop=True, inplace=True); df.index.name = 'index'] *)
Definition reset_index (df : dataframe) : dataframe :=
  {| index_name := "index";
     columns := columns df;
     rows := zip (VInt <$> range (Z.of_nat (length (rows df)))) (snd <$> rows df) |}.

Fixpoint insert_label (s : string) (ls : list string) : list string :=
  match ls with
  | [] => [s]
  | s' :: ls' => if String.leb s s' then s :: ls else s' :: insert_label s ls'
  end.

(** [sorted(ls)] for strings. *)
Definition sorted (ls : list string) : list string := foldr insert_label [] ls.

(** [df.loc[:, sorted(df.columns)]] *)
Definition sort_columns (df : dataframe) : dataframe :=
  let ls_column := sorted (columns df) in
  {| index_name := index_name df;
     columns := ls_column;
     rows := (fun r : row =>
                (r.1, (fun s => match position s (columns df) with
                                | Some i => nth i r.2 (VFloat 0)
                                | None => VFloat 0
                                end) <$> ls_column)) <$> rows df |}.

(** [df.loc[df.mesh_center_p == z_slice, :]]: an unknown attribute is an
    [AttributeError]. *)
Definition loc_z_slice (z_slice : Q) (df : dataframe) : result dataframe :=
  match position "mesh_center_p" (columns df) with
  | Some i =>
      Ok {| index_name := index_name df;
            columns := columns df;
            rows := filter (fun r : row =>
                              value_eqb (nth i r.2 (VFloat 0)) (VFloat z_slice) = true)
                           (rows df) |}
  | None => Raise AttributeError
  end.

(** The coordinate variable names. *)
Definition es_coor_conc : gset string :=
  {[ "ID";
     "voxel_i"; "voxel_j"; "voxel_k";
     "mesh_center_m"; "mesh_center_n"; "mesh_center_p";
     "time"; "runtime";
     "xmlfile" ]}.

Definition es_coor_cell : gset string :=
  {[ "ID";
     "voxel_i"; "voxel_j"; "voxel_k";
     "mesh_center_m"; "mesh_center_n"; "mesh_center_p";
     "position_x"; "position_y"; "position_z";
     "time"; "runtime";
     "xmlfile" ]}.

(** The block under the comment [# filter], the same in both accessors up
    to the coordinate set: the labels [es_delete] of the columns to drop. *)
Definition filter_delete (es_coor : gset string) (df : dataframe)
    (values : Z) (drop keep : gset string) : result (gset string) :=
  let es_attribute : gset string := list_to_set (columns df) ∖ es_coor in
  let es_delete : gset string :=
    if (0 <? size keep)%nat then es_attribute ∖ keep
    else es_attribute ∩ drop in
  if (1 <? values)%Z then
    for_in (fun (es_delete : gset string) (s_column : string) =>
              se ← loc_column df s_column;
              if (Z.of_nat (length (py_set se)) <? values)%Z
              then Ok (es_delete ∪ {[ s_column ]})
              else Ok es_delete)
           es_delete
           (elements (list_to_set (columns df) ∖ es_coor : gset string))
  else Ok es_delete.

(** [ar[abs(ar - z).argmin()]]: the first of the nearest values. *)
Definition nearest (ar : list Q) (z : Q) : result Q :=
  match ar with
  | [] => Raise ValueError
  | x :: l =>
      Ok (foldl (fun best y =>
                   if Qle_bool (Qabs (best - z)) (Qabs (y - z)) then best else y)
                x l)
  end.

(** [TimeStep.get_conc_df]; [ar_p_axis] is the third array of
    [self.get_mesh_mnp_axis()] and [df_conc] is
    [self.data['substrate']['df_conc']]. *)
Definition get_conc_df (ar_p_axis : list Q) (df_conc : dataframe)
    (z_slice : option Q) (halt : bool) (values : Z) (drop keep : gset string)
  : result dataframe :=
  if (0 <? size keep)%nat && (0 <? size drop)%nat then Raise SystemExit
  else
    z_slice ← match z_slice with
              | None => Ok None
              | Some z =>
                  if existsb (Qeq_bool z) ar_p_axis then Ok (Some z)
                  else if halt then Raise SystemExit
                  else Some <$> nearest ar_p_axis z
              end;
    df ← match z_slice with
         | None => Ok df_conc
         | Some z => loc_z_slice z df_conc
         end;
    es_delete ← filter_delete es_coor_conc df values drop keep;
    df ← sort_values ["voxel_i"; "voxel_j"; "voxel_k"; "time"]
                     (Frame.drop es_delete df);
    Ok (reset_index df).

(** [TimeStep.get_cell_df]; [df_cell] is [self.data['cell']['df_cell']]. *)
Definition get_cell_df (df_cell : dataframe)
    (values : Z) (drop keep : gset string) : result dataframe :=
  if (0 <? size keep)%nat && (0 <? size drop)%nat then Raise SystemExit
  else
    es_delete ← filter_delete es_coor_cell df_cell values drop keep;
    sort_values ["ID"] (sort_columns (Frame.drop es_delete df_cell)).

End Frame.

(* ===================================================================== *)
(** ** Accessors and the objects they hand out *)
(* ===================================================================== *)

Module Access.

(** A reference to a [numpy] array object. *)
Definition ref : Type := nat.

(** The part of the Python heap that holds the arrays of the mesh: the
    array objects by reference, the list [self.data['mesh']['mnp_axis']] of
    three references and the array [self.data['mesh']['mnp_coordinate']]
    (kept flat). *)
Record snapshot : Type := {
  arrays : gmap ref (list Q);
  mnp_axis : list ref;
  mnp_coordinate : ref;
}.

(** A reference no array of the heap has. *)
Definition fresh (arrays : gmap ref (list Q)) : ref :=
  S (foldr Nat.max O (elements (dom arrays))).

(** [TimeStep.get_mesh_mnp_axis]: [list.copy()] is a new list of the same
    references. *)
Definition get_mesh_mnp_axis (self : snapshot) : snapshot * list ref :=
  (self, mnp_axis self).

(** [TimeStep.get_mesh_coordinate]: [ndarray.copy()] is a new array. *)
Definition get_mesh_coordinate (self : snapshot) : snapshot * ref :=
  let r := fresh (arrays self) in
  ({| arrays := <[r := default [] (arrays self !! mnp_coordinate self)]> (arrays self);
      mnp_axis := mnp_axis self;
      mnp_coordinate := mnp_coordinate self |}, r).

(** The caller's statement [ar[i] = v] on the array referred to by [r]. *)
Definition setitem (r : ref) (i : nat) (v : Q) (self : snapshot) : snapshot :=
  {| arrays := alter (fun ar => <[i := v]> ar) r (arrays self);
     mnp_axis := mnp_axis self;
     mnp_coordinate := mnp_coordinate self |}.

(** The numbers a list of array references shows. *)
Definition contents (self : snapshot) (lar : list ref) : list (list Q) :=
  (fun r => default [] (arrays self !! r)) <$> lar.

End Access.

(* ===================================================================== *)
(** ** The words of the specification *)
(* ===================================================================== *)

Module Spec.

(** *** Adjacency files (section 4.7) *)

(** A string of white space only. *)
Fixpoint blank (s : string) : bool :=
  match s with
  | EmptyString => true
  | String c s' => is_space c && blank s'
  end.

Fixpoint has_char (c : ascii) (s : string) : bool :=
  match s with
  | EmptyString => false
  | String c' s' => Ascii.eqb c' c || has_char c s'
  end.

(** A line of the form [<id>:<comma-separated ids or empty>]: up to the
    white space around it, the line is the text [s_key] of the identifier
    [i_key], a colon, and the texts [ls_id] of the identifiers [li_id],
    joined by commas. *)
Inductive line_form : string -> Z * list Z -> Prop :=
| LineForm (s_line s_key : string) (ls_id : list string)
           (i_key : Z) (li_id : list Z) :
    strip s_line = s_key +:+ ":" +:+ join "," ls_id ->
    has_char ":" s_key = false ->
    Forall (fun s => has_char ":" s = false) ls_id ->
    Forall (fun s => has_char "," s = false) ls_id ->
    py_int s_key = Ok i_key ->
    Forall2 (fun s i => py_int s = Ok i) ls_id li_id ->
    line_form s_line (i_key, li_id).

(** *** Cell label schema (section 4.4) *)

(** The convention a label name belongs to, in the order of priority. *)
Inductive convention : Set :=
| PerSubstrate
| PerAgentType
| PerDeathModel
| SpatialVector
| Plain.

Definition convention_of (name : string) : convention :=
  if Cell.is_in name Cell.es_var_subs then PerSubstrate
  else if Cell.is_in name Cell.es_var_cell then PerAgentType
  else if Cell.is_in name Cell.es_var_death then PerDeathModel
  else if Cell.is_in name Cell.es_var_spatial then SpatialVector
  else Plain.

(** [<name>_<index>] for each index below the width. *)
Definition by_index (name : string) (width : Z) : list string :=
  (fun i => name +:+ "_" +:+ py_str i) <$> range width.

(** The columns a label [(name, width)] stands for, given the resolved
    substrate labels and agent type labels; a list is empty when there is
    no table.  A plain name of a width below 1 is kept like one of
    width 1. *)
Definition expand (substrates celltypes : list string) (name : string) (width : Z)
  : list string :=
  match convention_of name with
  | PerSubstrate =>
      match substrates with
      | [] => by_index name width
      | _ => (fun s => s +:+ "_" +:+ name) <$> substrates
      end
  | PerAgentType =>
      match celltypes with
      | [] => by_index name width
      | _ => (fun s => s +:+ "_" +:+ name) <$> celltypes
      end
  | PerDeathModel => by_index name width
  | SpatialVector => [name +:+ "_x"; name +:+ "_y"; name +:+ "_z"]
  | Plain =>
      if width =? 1 then [name]
      else if 1 <? width then
        (fun i => name +:+ "_" +:+ zfill 3 (py_str i)) <$> range width
      else [name]
  end.

(** *** Agent type resolution (section 4.5) *)

(** The fallback as the specification words it: the table of the first
    tier that has one, and nothing of the later tiers. *)
Definition first_tier (tier_a tier_b : option (list (string * string)))
    (tier_c : dict string) : dict string :=
  match tier_a, tier_b with
  | Some table, _ => Cell.update_all [] table
  | None, Some table => Cell.update_all [] table
  | None, None => tier_c
  end.

End Spec.

(* ===================================================================== *)
(** ** A small bundle *)
(* ===================================================================== *)

Module Example.

(** The label nodes of a cell population. *)
Definition labels : list Cell.label :=
  [ {| Cell.text := "ID"; Cell.size := 1; Cell.units := "none" |};
    {| Cell.text := "position"; Cell.size := 3; Cell.units := "micron" |};
    {| Cell.text := "cell_type"; Cell.size := 1; Cell.units := "none" |} ].

(** The columns the labels stand for, and their units. *)
Definition schema : Cell.schema :=
  (["ID"; "position_x"; "position_y"; "position_z"; "cell_type"],
   [("ID", "none"); ("position_x", "micron"); ("position_y", "micron");
    ("position_z", "micron"); ("cell_type", "none")]).

(** The agent matrix of two agents, and one that lacks a row. *)
Definition cells : list (list Q) :=
  [[0; 1]; [9; 31]; [4; -(7 # 2)]; [0; 0]; [0; 1]]%Q.

Definition cells_short : list (list Q) :=
  [[0; 1]; [9; 31]; [4; -(7 # 2)]; [0; 0]]%Q.

(** The agent type tables of a settings document and of an output XML. *)
Definition settings_types : list (string * string) := [("0", "a"); ("1", "b")].
Definition xml_types : list (string * string) := [("0", "x")].

(** A stored agent table of three agents, indexed by [ID]. *)
Definition df_cell : Frame.dataframe :=
  {| Frame.index_name := "ID";
     Frame.columns := ["voxel_i"; "position_x"; "cell_type"; "dead"; "time"];
     Frame.rows :=
       [ (Frame.VInt 2, [Frame.VInt 0; Frame.VFloat 1; Frame.VStr "a";
                         Frame.VBool false; Frame.VFloat 0]);
         (Frame.VInt 0, [Frame.VInt 1; Frame.VFloat 12; Frame.VStr "b";
                         Frame.VBool false; Frame.VFloat 0]);
         (Frame.VInt 1, [Frame.VInt 1; Frame.VFloat 14; Frame.VStr "b";
                         Frame.VBool false; Frame.VFloat 0]) ] |}.

(** A stored concentration table of three voxels. *)
Definition df_conc : Frame.dataframe :=
  {| Frame.index_name := "index";
     Frame.columns :=
       ["voxel_i"; "voxel_j"; "voxel_k"; "mesh_center_p"; "oxygen"; "time"];
     Frame.rows :=
       [ (Frame.VInt 0, [Frame.VInt 0; Frame.VInt 0; Frame.VInt 0;
                         Frame.VFloat 0; Frame.VFloat 38; Frame.VFloat 0]);
         (Frame.VInt 1, [Frame.VInt 0; Frame.VInt 0; Frame.VInt 1;
                         Frame.VFloat 10; Frame.VFloat 38; Frame.VFloat 0]);
         (Frame.VInt 2, [Frame.VInt 1; Frame.VInt 0; Frame.VInt 0;
                         Frame.VFloat 0; Frame.VFloat 38; Frame.VFloat 0]) ] |}.

(** The mesh arrays of a snapshot with the axes [0,10,20], [0,10], [0]. *)
Definition snapshot : Access.snapshot :=
  {| Access.arrays :=
       {[ 0%nat := [0; 10; 20]%Q; 1%nat := [0; 10]%Q; 2%nat := [0]%Q;
          3%nat := [0; 10; 20; 0; 10; 20]%Q ]};
     Access.mnp_axis := [0%nat; 1%nat; 2%nat];
     Access.mnp_coordinate := 3%nat |}.

End Example.

(* ===================================================================== *)
(** ** Mesh accessors: [is_in_mesh], [get_mesh_mnp], [get_voxel_ijk] *)
(* ===================================================================== *)

Module MeshAccess.

(** [a < b] on floats. *)
Definition lt (a b : Q) : bool := negb (Qle_bool b a).

(** [TimeStep.is_in_mesh]; [xyz_range] is [self.get_xyz_range()], the
    bounding box of the XML mesh node. *)
Definition is_in_mesh (xyz_range : (Q * Q) * (Q * Q) * (Q * Q))
    (x y z : Q) (halt : bool) : result bool :=
  let '(tr_x, tr_y, tr_z) := xyz_range in
  let b_isinmesh :=
    if lt x tr_x.1 || lt tr_x.2 x then false
    else if lt y tr_y.1 || lt tr_y.2 y then false
    else if lt z tr_z.1 || lt tr_z.2 z then false
    else true in
  if halt && negb b_isinmesh then Raise SystemExit else Ok b_isinmesh.


(** [int(np.round(r))] for a float64 [r]: the exact integer of a finite
    value; Python's [int] raises [OverflowError] on an infinity and
    [ValueError] on a [nan]. *)
Definition int_round (r : Float64.f64) : result Z :=
  match r with
  | Float64.Fin q => Ok (Mesh.np_round q)
  | Float64.Inf => Raise OverflowError
  | Float64.NaN => Raise ValueError
  end.

(** [TimeStep.get_voxel_ijk]: [None] when the position is checked and found
    out of the bounding box, else the rounded float quotients, as Python
    integers. *)
Definition get_voxel_ijk (m : Mesh.mesh) (xyz_range : (Q * Q) * (Q * Q) * (Q * Q))
    (x y z : Q) (is_in_mesh_flag : bool) : result (option (Z * Z * Z)) :=
  b_calc ← (if is_in_mesh_flag then is_in_mesh xyz_range x y z false else Ok true);
  if b_calc : bool then
    let '(tr_m, tr_n, tr_p) := Mesh.mnp_range m in
    let '(dm, dn, dp) := Mesh.mnp_spacing m in
    i ← int_round (Float64.fdiv (Float64.fsub x tr_m.1) dm);
    j ← int_round (Float64.fdiv (Float64.fsub y tr_n.1) dn);
    k ← int_round (Float64.fdiv (Float64.fsub z tr_p.1) dp);
    Ok (Some (i, j, k))
  else Ok None.

End MeshAccess.

(* ===================================================================== *)
(** ** Substrate identifiers and the unit dictionary *)
(* ===================================================================== *)

Module Substrate.

(** [enumerate(l)] *)
Definition enumerate {A : Type} (l : list A) : list (Z * A) :=
  zip (range (Z.of_nat (length l))) l.

(** Lines 2568-2598: the substrate id-label dictionary, from the [name]
    attributes of the variable nodes in the order of the XML.  The loop is
    run only when [self.microenv] is set. *)
Definition read_substrates (microenv : bool) (names : list string) : dict string :=
  if microenv then
    foldl (fun ds (x : Z * string) => dict_update (py_str x.1) x.2 ds)
          [] (enumerate names)
  else [].

(** Lines 2627-2631: the substrate listing. *)
Definition substrate_list (ds_substrate : dict string) : result (list string) :=
  values_sorted_by_int_key ds_substrate.

End Substrate.

Module Units.





End Units.

(* ===================================================================== *)
(** ** Path and file name: the head of [TimeStep._read_xml] *)
(* ===================================================================== *)

Module Path.

(** [s.replace('\\', '/')] *)
Fixpoint replace_backslash (s : string) : string :=
  match s with
  | EmptyString => EmptyString
  | String c s' =>
      String (if Ascii.eqb c "\" then "/"%char else c) (replace_backslash s')
  end.

(** [s.replace('//', '/')]: the occurrences from the left, without overlap. *)
Fixpoint replace_slashes (s : string) : string :=
  match s with
  | EmptyString => EmptyString
  | String c s' =>
      match s' with
      | String c' s'' =>
          if Ascii.eqb c "/" && Ascii.eqb c' "/" then String "/" (replace_slashes s'')
          else String c (replace_slashes s')
      | EmptyString => s
      end
  end.

(** [s.find('//') > -1] *)
Fixpoint has_slashes (s : string) : bool :=
  match s with
  | EmptyString => false
  | String c s' =>
      match s' with
      | String c' _ => (Ascii.eqb c "/" && Ascii.eqb c' "/") || has_slashes s'
      | EmptyString => false
      end
  end.

(** [while (s.find('//') > -1): s = s.replace('//', '/')], run for at most
    [fuel] rounds. *)
Fixpoint squeeze (fuel : nat) (s : string) : string :=
  match fuel with
  | O => s
  | S fuel' => if has_slashes s then squeeze fuel' (replace_slashes s) else s
  end.

(** [s.endswith('/')] *)
Fixpoint ends_with_slash (s : string) : bool :=
  match s with
  | EmptyString => false
  | String c EmptyString => Ascii.eqb c "/"
  | String _ s' => ends_with_slash s'
  end.

(** [s[:-1]] *)
Fixpoint but_last (s : string) : string :=
  match s with
  | EmptyString => EmptyString
  | String c EmptyString => EmptyString
  | String c s' => String c (but_last s')
  end.

(** [ls.pop(-1)] with what is left of the list; [split] gives no empty
    list. *)
Fixpoint pop_last (ls : list string) : list string * string :=
  match ls with
  | [] => ([], EmptyString)
  | [s] => ([], s)
  | s :: ls' => let '(l, x) := pop_last ls' in (s :: l, x)
  end.

(** Lines 2360-2371: [(self.path, self.xmlfile)].  The loop is given as
    many rounds as the path has characters. *)
Definition path_and_file (xmlfile output_path : string) : string * string :=
  let s_xmlfile := replace_backslash xmlfile in
  let '(s_xmlfile, output_path) :=
    if Spec.has_char "/" xmlfile && String.eqb output_path "." then
      let '(ls_xmlfile, s_file) := pop_last (split "/" xmlfile) in
      (s_file, join "/" ls_xmlfile)
    else (s_xmlfile, output_path) in
  let output_path := squeeze (String.length output_path) output_path in
  let output_path :=
    if ends_with_slash output_path && (1 <? String.length output_path)%nat
    then but_last output_path else output_path in
  (output_path, s_xmlfile).

End Path.

(* ===================================================================== *)
(** ** Notions the properties are stated with *)
(* ===================================================================== *)

Module Notions.

(** The number a decimal stands for, after the digits read so far. *)
Fixpoint uint_val (d : Decimal.uint) (acc : Z) : Z :=
  match d with
  | Decimal.Nil => acc
  | Decimal.D0 d => uint_val d (10 * acc)
  | Decimal.D1 d => uint_val d (10 * acc + 1)
  | Decimal.D2 d => uint_val d (10 * acc + 2)
  | Decimal.D3 d => uint_val d (10 * acc + 3)
  | Decimal.D4 d => uint_val d (10 * acc + 4)
  | Decimal.D5 d => uint_val d (10 * acc + 5)
  | Decimal.D6 d => uint_val d (10 * acc + 6)
  | Decimal.D7 d => uint_val d (10 * acc + 7)
  | Decimal.D8 d => uint_val d (10 * acc + 8)
  | Decimal.D9 d => uint_val d (10 * acc + 9)
  end.

(** A string of decimal digits. *)
Fixpoint digits_only (s : string) : bool :=
  match s with
  | EmptyString => true
  | String c s' => match digit_of c with Some _ => true | None => false end
                   && digits_only s'
  end.

(** The order of [sorted(..., key=int)] on the entries of a dictionary whose
    keys are read as integers. *)
Definition key_le {A : Type} (a b : Z * A) : Prop := a.1 <= b.1.

(** The names under which the label loop files the unit of a label: the
    columns of a label of a convention, the label's own name else. *)
Definition unit_keys (substrates celltypes : list string) (x : Cell.label)
  : list string :=
  match Spec.convention_of (Cell.text x) with
  | Spec.Plain => [Cell.text x]
  | _ => Spec.expand substrates celltypes (Cell.text x) (Cell.size x)
  end.

Definition unit_items (substrates celltypes : list string) (x : Cell.label)
  : list (string * string) :=
  (fun c => (c, Cell.units x)) <$> unit_keys substrates celltypes x.

(** What holds of an axis of a loaded mesh, its range and its index range:
    the centers increase strictly, the range is the least and the greatest
    center, the indices run from 0 to the number of centers less one. *)
Definition axis_ok (ar : list Q) (tr : Q * Q) (ti : Z * Z) : Prop :=
  StronglySorted Qlt ar
  /\ tr.1 ∈ ar /\ tr.2 ∈ ar
  /\ Forall (fun v => (tr.1 <= v <= tr.2)%Q) ar
  /\ ti = (0, Z.of_nat (length ar) - 1)
  /\ 0 <= ti.2.

(** A position within the bounding box, the bounds included. *)
Definition in_box (xyz_range : (Q * Q) * (Q * Q) * (Q * Q)) (x y z : Q) : Prop :=
  let '(tr_x, tr_y, tr_z) := xyz_range in
  (tr_x.1 <= x <= tr_x.2 /\ tr_y.1 <= y <= tr_y.2 /\ tr_z.1 <= z <= tr_z.2)%Q.

(** The columns with fewer distinct values than asked for. *)
Definition few_values (df : Frame.dataframe) (values : Z) (c : string) : Prop :=
  exists se, Frame.loc_column df c = Ok se
             /\ Z.of_nat (length (Frame.py_set se)) < values.

(** The order of two rows by their index labels. *)
Definition index_le (r r' : Frame.row) : Prop :=
  Frame.keys_leb [r.1] [r'.1] = true.

End Notions.

(* ===================================================================== *)
(** * Properties *)
(* ===================================================================== *)

(** ** Strings, loops and dictionaries *)

Section python_facts.
Import Spec.

Lemma is_empty_lstrip s : is_empty (lstrip s) = blank s.
Proof.
  induction s as [|c s IH]; simpl; [done|].
  destruct (is_space c); simpl; done.
Qed.

Lemma is_empty_rstrip s : is_empty (rstrip s) = blank s.
Proof.
  induction s as [|c s IH]; simpl; [done|].
  rewrite IH. destruct (is_space c), (blank s); done.
Qed.

Lemma blank_lstrip s : blank (lstrip s) = blank s.
Proof.
  induction s as [|c s IH]; simpl; [done|].
  destruct (is_space c) eqn:E; simpl; [done|]. by rewrite E.
Qed.

Lemma is_empty_strip s : is_empty (strip s) = blank s.
Proof. unfold strip. by rewrite is_empty_rstrip, blank_lstrip. Qed.

Lemma blank_app s t : blank (s +:+ t) = blank s && blank t.
Proof.
  induction s as [|c s IH]; simpl; [done|].
  rewrite IH. by rewrite andb_assoc.
Qed.

Lemma has_char_app c s t : has_char c (s +:+ t) = has_char c s || has_char c t.
Proof.
  induction s as [|c' s IH]; simpl; [done|].
  rewrite IH. by rewrite orb_assoc.
Qed.

Lemma split_free sep s : has_char sep s = false -> split sep s = [s].
Proof.
  induction s as [|c s IH]; simpl; [done|].
  intros [Hc Hs]%orb_false_elim. rewrite Hc, (IH Hs). done.
Qed.

Lemma split_app sep s t :
  has_char sep s = false -> split sep (s +:+ String sep t) = s :: split sep t.
Proof.
  induction s as [|c s IH]; simpl.
  - intros _. by rewrite Ascii.eqb_refl.
  - intros [Hc Hs]%orb_false_elim. rewrite Hc, (IH Hs). done.
Qed.

Lemma split_join sep ls :
  ls <> [] -> Forall (fun s => has_char sep s = false) ls ->
  split sep (join (String sep "") ls) = ls.
Proof.
  induction ls as [|s ls IH]; [done|].
  intros _ Hall. inversion_clear Hall as [|? ? Hs Hls].
  destruct ls as [|s' ls].
  - simpl. by apply split_free.
  - change (join (String sep "") (s :: s' :: ls))
      with (s +:+ String sep (join (String sep "") (s' :: ls))).
    rewrite split_app by done. f_equal. by apply IH.
Qed.

Lemma has_char_join c sep ls :
  has_char c sep = false -> Forall (fun s => has_char c s = false) ls ->
  has_char c (join sep ls) = false.
Proof.
  intros Hsep. induction 1 as [|s ls Hs Hls IH]; [done|].
  destruct ls as [|s' ls]; [done|].
  change (join sep (s :: s' :: ls)) with (s +:+ sep +:+ join sep (s' :: ls)).
  rewrite !has_char_app, Hs, Hsep, IH. done.
Qed.

Lemma is_int_space_is_space c : is_int_space c = true -> is_space c = true.
Proof.
  unfold is_int_space, is_space. generalize (nat_of_ascii c). intros n.
  destruct (9 <=? n)%nat, (n <=? 13)%nat; simpl; try done;
    destruct (Nat.eqb_spec n 32) as [->|]; done.
Qed.

Lemma blank_int_lstrip s : blank s = true -> blank (int_lstrip s) = true.
Proof.
  induction s as [|c s IH]; simpl; [done|].
  intros [Hc Hs]%andb_prop. destruct (is_int_space c); [by apply IH|].
  simpl. by rewrite Hc, Hs.
Qed.

Lemma blank_int_rstrip s : blank s = true -> blank (int_rstrip s) = true.
Proof.
  induction s as [|c s IH]; simpl; [done|].
  intros [Hc Hs]%andb_prop.
  destruct (is_int_space c && is_empty (int_rstrip s)); [done|].
  simpl. by rewrite Hc, IH.
Qed.

Lemma digit_of_not_space c d : digit_of c = Some d -> is_space c = false.
Proof.
  unfold digit_of, is_space. generalize (nat_of_ascii c). intros n.
  destruct (Nat.leb_spec 48 n); simpl; [|done].
  destruct (Nat.leb_spec n 57); simpl; [|done]. intros _.
  destruct (Nat.leb_spec 9 n), (Nat.leb_spec n 13), (Nat.leb_spec 28 n),
    (Nat.leb_spec n 32); simpl; try done; lia.
Qed.

Lemma int_digits_not_blank acc r i :
  int_digits acc false r = Ok i -> blank r = false.
Proof.
  destruct r as [|c r]; simpl; [done|].
  destruct (Ascii.eqb c "_"); [done|].
  destruct (digit_of c) as [d|] eqn:Hd; [|done].
  intros _. by rewrite (digit_of_not_space _ _ Hd).
Qed.

Lemma py_int_not_blank s i : py_int s = Ok i -> blank s = false.
Proof.
  unfold py_int. intros H.
  destruct (blank s) eqn:Hs; [|done].
  apply blank_int_lstrip, blank_int_rstrip in Hs.
  destruct (int_rstrip (int_lstrip s)) as [|c r]; [done|].
  assert (Hr : blank (String c r) = false); [|congruence].
  destruct (Ascii.eqb_spec c "+") as [->|Hp]; [done|].
  destruct (Ascii.eqb_spec c "-") as [->|Hm]; [done|].
  eapply (int_digits_not_blank 0 _ i).
  destruct c as [[] [] [] [] [] [] [] []]; try done.
Qed.

Lemma blank_join sep s ls : blank s = false -> blank (join sep (s :: ls)) = false.
Proof.
  intros Hs. destruct ls as [|s' ls]; [done|].
  change (join sep (s :: s' :: ls)) with (s +:+ sep +:+ join sep (s' :: ls)).
  by rewrite blank_app, Hs.
Qed.

Lemma traverse_Forall2 {A B} (f : A -> result B) l l' :
  Forall2 (fun x y => f x = Ok y) l l' -> traverse f l = Ok l'.
Proof.
  induction 1 as [|x y l l' Hxy _ IH]; [done|].
  simpl. rewrite Hxy. simpl. rewrite IH. done.
Qed.


Lemma for_in_invariant {A S} (P : S -> Prop) (body : S -> A -> result S) l :
  (forall st x st', x ∈ l -> P st -> body st x = Ok st' -> P st') ->
  forall st st', P st -> for_in body st l = Ok st' -> P st'.
Proof.
  induction l as [|x l IH]; intros Hbody st st' Hst; simpl.
  - by intros [= <-].
  - destruct (body st x) as [st1|] eqn:E; [|done]. simpl.
    apply IH.
    + intros st0 y st0' Hy. apply Hbody. by right.
    + eapply Hbody; [left|done..].
Qed.

End python_facts.

(** ** The graph decoder *)

Section graph_facts.
Import Graph Spec.

(** What the loop of [graphfile_parser] does with one entry. *)
Let add_entry (g : gmap Z (gset Z)) (e : Z * list Z) : gmap Z (gset Z) :=
  <[e.1 := list_to_set e.2]> g.

Lemma parse_line_form s_line e :
  line_form s_line e -> parse_line s_line = Ok (e.1, list_to_set e.2).
Proof.
  destruct 1 as [s_line s_key ls_id i_key li_id Hstrip Hkey Hcolon Hcomma Hint Hids].
  unfold parse_line. rewrite Hstrip.
  change (s_key +:+ ":" +:+ join "," ls_id)
    with (s_key +:+ String ":" (join "," ls_id)).
  rewrite split_app by done.
  rewrite split_free by (by apply has_char_join).
  destruct Hids as [|s i ls_id li_id Hs Hids].
  - simpl. rewrite Hint. done.
  - rewrite is_empty_strip, (blank_join _ _ _ (py_int_not_blank _ _ Hs)).
    rewrite split_join by done.
    rewrite (traverse_Forall2 py_int (s :: ls_id) (i :: li_id)) by (by constructor).
    simpl. rewrite Hint. done.
Qed.

(** [int] does not skip the separators 28-31 that [str.strip] removes: a
    line with one of them before a number is refused. *)
Lemma parse_line_separator :
  py_int (String "028" "1") = Raise ValueError
  /\ parse_line ("5:" +:+ String "028" "1") = Raise ValueError
  /\ parse_line ("5: 1 " +:+ String "028" "") = Ok (5, {[ 1 ]}).
Proof. split; [|split]; reflexivity. Qed.

Lemma for_in_lines lines entries :
  Forall2 line_form lines entries ->
  forall g,
    for_in (fun dei_graph s_line =>
              kv ← parse_line s_line; Ok (<[kv.1 := kv.2]> dei_graph))
           g lines
    = Ok (foldl add_entry g entries).
Proof.
  induction 1 as [|s_line e lines entries He _ IH]; intros g; [done|].
  simpl. rewrite (parse_line_form _ _ He). simpl. apply IH.
Qed.

Lemma foldl_add_entry_lookup entries : forall g l1 i li l2,
  entries = (l1 ++ (i, li) :: l2)%list -> i ∉ l2.*1 ->
  foldl add_entry g entries !! i = Some (list_to_set li).
Proof.
  intros g l1 i li l2 -> Hi. rewrite foldl_app. simpl.
  assert (Hg : add_entry (foldl add_entry g l1) (i, li) !! i = Some (list_to_set li))
    by apply lookup_insert_eq.
  revert Hg. generalize (add_entry (foldl add_entry g l1) (i, li)).
  induction l2 as [|[j lj] l2 IH]; intros g' Hg; [done|].
  simpl. apply IH.
  - set_solver.
  - unfold add_entry. simpl. rewrite lookup_insert_ne; [done|]. set_solver.
Qed.

Lemma foldl_add_entry_dom entries : forall g,
  dom (foldl add_entry g entries) = dom g ∪ list_to_set entries.*1.
Proof.
  induction entries as [|e entries IH]; intros g; simpl.
  - set_solver.
  - rewrite IH. unfold add_entry. rewrite dom_insert_L. set_solver.
Qed.


(** C8. For every adjacency file whose lines have the form
    [<id>:<comma-separated ids or empty>], [graphfile_parser] returns a
    dictionary whose keys are the identifiers of the lines and in which
    each identifier is mapped to the set of the identifiers its line lists
    (its last line, should the file repeat an identifier); an empty
    right-hand side gives the empty set.  The line ["5: 2,7"] parses to
    [{5: {2,7}}] and the line ["6:"] to [{6: {}}]. *)
Theorem graphfile_parser_entries :
  (forall lines entries,
     Forall2 line_form lines entries ->
     exists dei_graph,
       graphfile_parser lines = Ok dei_graph
       /\ dom dei_graph = list_to_set entries.*1
       /\ forall l1 i li l2,
            entries = (l1 ++ (i, li) :: l2)%list -> i ∉ l2.*1 ->
            dei_graph !! i = Some (list_to_set li))
  /\ graphfile_parser ["5: 2,7"] = Ok {[ 5 := {[ 2; 7 ]} ]}
  /\ graphfile_parser ["6:"] = Ok {[ 6 := ∅ ]}.
Proof.
  split; [|split; reflexivity].
  intros lines entries Hform. eexists. split; [|split].
  - unfold graphfile_parser. by apply for_in_lines.
  - rewrite foldl_add_entry_dom. set_solver.
  - intros l1 i li l2 Heq Hi. by eapply foldl_add_entry_lookup.
Qed.

(** The two lines of scenario C, the second with its line end, have the
    form of an adjacency line. *)
Lemma scenario_C_form :
  Forall2 line_form ["5: 2,7" +:+ String "010" ""; "6:" +:+ String "010" ""]
          [(5, [2; 7]); (6, [])].
Proof.
  apply List.Forall2_cons; [|apply List.Forall2_cons; [|apply List.Forall2_nil]].
  - apply (LineForm _ "5" [" 2"; "7"]); try reflexivity.
    + repeat constructor.
    + repeat constructor.
    + repeat constructor.
  - apply (LineForm _ "6" []); try reflexivity; constructor.
Defined.

Lemma graphfile_parser_entries_witness :
  exists dei_graph,
    graphfile_parser ["5: 2,7" +:+ String "010" ""; "6:" +:+ String "010" ""]
    = Ok dei_graph
    /\ dei_graph !! 5 = Some {[ 2; 7 ]}
    /\ dei_graph !! 6 = Some ∅.
Proof.
  destruct (proj1 graphfile_parser_entries _ _ scenario_C_form)
    as (dei_graph & Hparse & _ & Hlookup).
  exists dei_graph. split; [exact Hparse|]. split.
  - apply (Hlookup [] 5 [2; 7] [(6, [])] eq_refl).
    simpl. intros [H|H]%elem_of_cons; [discriminate H|inversion H].
  - apply (Hlookup [(5, [2; 7])] 6 [] [] eq_refl).
    intros H. inversion H.
Defined.

End graph_facts.

(** ** The mesh *)

Section mesh_facts.
Import Float64 Mesh.
Open Scope Q_scope.

Lemma py_set_repr a : forall y, y ∈ a -> exists y', y' ∈ py_set a /\ y' == y.
Proof.
  induction a as [|x a IH]; intros y Hy; [by apply elem_of_nil in Hy|].
  simpl. apply elem_of_cons in Hy as [->|Hy].
  - exists x. split; [left|reflexivity].
  - destruct (IH y Hy) as (y' & Hin & Heq).
    destruct (Qeq_bool x y') eqn:E.
    + exists x. split; [left|]. apply Qeq_bool_iff in E. by rewrite E.
    + exists y'. split; [|done]. right.
      apply list_elem_of_filter. by rewrite E.
Qed.

Lemma py_set_single a v : py_set a = [v] -> Forall (Qeq v) a.
Proof.
  intros Hset. apply Forall_forall. intros y Hy.
  destruct (py_set_repr a y Hy) as (y' & Hin & Heq).
  rewrite Hset in Hin. apply list_elem_of_singleton in Hin as ->. done.
Qed.

Lemma voxel_volume_exit ar :
  voxel_volume ar = Raise SystemExit <-> length (py_set ar) <> 1%nat.
Proof.
  unfold voxel_volume.
  destruct (Nat.eqb_spec (length (py_set ar)) 1) as [E|E]; simpl.
  - destruct ar; [done|]. split; [discriminate|done].
  - done.
Qed.

Lemma voxel_volume_ok ar v :
  voxel_volume ar = Ok v <-> py_set ar = [v].
Proof.
  unfold voxel_volume.
  destruct (Nat.eqb_spec (length (py_set ar)) 1) as [E|E]; simpl.
  - destruct ar as [|x ar]; [done|]. simpl in *.
    destruct (filter _ (py_set ar)); [|done].
    split; intros [= ->]; done.
  - split; [done|]. intros Hv. by rewrite Hv in E.
Qed.

Lemma np_unique_nil a : np_unique a = [] -> a = [].
Proof.
  destruct a as [|x a]; [done|]. simpl.
  destruct (np_unique a) as [|y l]; [done|]. simpl.
  destruct (x ?= y); done.
Qed.

Lemma axis_range_ok ar : ar <> [] -> exists tr, axis_range ar = Ok tr.
Proof. destruct ar; [done|]. intros _. by eexists. Qed.

Lemma axis_range_length ar tr : axis_range ar = Ok tr -> (1 <= length ar)%nat.
Proof. destruct ar; [done|]. simpl. lia. Qed.

Lemma read_mesh_inv x y z ar m :
  read_mesh x y z ar = Ok m ->
  exists tr_m tr_n tr_p,
    axis_range (np_unique x) = Ok tr_m /\
    axis_range (np_unique y) = Ok tr_n /\
    axis_range (np_unique z) = Ok tr_p /\
    voxel_volume ar = Ok (volume m) /\
    mnp_axis m = (np_unique x, np_unique y, np_unique z) /\
    mnp_range m = (tr_m, tr_n, tr_p) /\
    ijk_range m = (voxel_range (np_unique x), voxel_range (np_unique y),
                   voxel_range (np_unique z)) /\
    mnp_spacing m =
      (axis_spacing tr_m (np_unique x), axis_spacing tr_n (np_unique y),
       fdiv (Fin (volume m))
            (fmul (axis_spacing tr_m (np_unique x))
                  (axis_spacing tr_n (np_unique y)))).
Proof.
  unfold read_mesh.
  destruct (axis_range (np_unique x)) as [tr_m|]; [|done].
  destruct (axis_range (np_unique y)) as [tr_n|]; [|done].
  destruct (axis_range (np_unique z)) as [tr_p|]; [|done].
  destruct (voxel_volume ar) as [v|]; [|done].
  simpl. intros [= <-]. exists tr_m, tr_n, tr_p. simpl. done.
Qed.

Lemma read_mesh_ok x y z ar v :
  x <> [] -> y <> [] -> z <> [] -> voxel_volume ar = Ok v ->
  exists m, read_mesh x y z ar = Ok m /\ volume m = v.
Proof.
  intros Hx Hy Hz Hv. unfold read_mesh.
  destruct (axis_range_ok (np_unique x)) as [tr_m ->];
    [by intros ?%np_unique_nil|].
  destruct (axis_range_ok (np_unique y)) as [tr_n ->];
    [by intros ?%np_unique_nil|].
  destruct (axis_range_ok (np_unique z)) as [tr_p ->];
    [by intros ?%np_unique_nil|].
  rewrite Hv. simpl. by eexists.
Qed.

Lemma read_mesh_exit x y z ar :
  x <> [] -> y <> [] -> z <> [] ->
  read_mesh x y z ar = Raise SystemExit <-> voxel_volume ar = Raise SystemExit.
Proof.
  intros Hx Hy Hz. unfold read_mesh.
  destruct (axis_range_ok (np_unique x)) as [tr_m ->];
    [by intros ?%np_unique_nil|].
  destruct (axis_range_ok (np_unique y)) as [tr_n ->];
    [by intros ?%np_unique_nil|].
  destruct (axis_range_ok (np_unique z)) as [tr_p ->];
    [by intros ?%np_unique_nil|].
  simpl. destruct (voxel_volume ar) as [v|e]; simpl; [split; discriminate|].
  split; intros [= ->]; done.
Qed.


(** C7, as stated, fails on a volume row without entries: the load is
    aborted although the row has no two distinct values. *)
Lemma volume_row_empty_aborts :
  ~ (read_mesh [0; 10; 20] [0; 10] [0] [] = Raise SystemExit
     <-> (1 < length (py_set []))%nat).
Proof. intros [H _]. specialize (H eq_refl). simpl in H. lia. Qed.

(** C7, amended.  The mesh load aborts with a fatal error if and only if
    the number of distinct values of the volume row differs from one, that
    is with more than one distinct value and also with none; with exactly
    one the load goes through, and the voxel volume of the snapshot is that
    value, which every entry of the row equals. *)
Theorem volume_row_unique x y z ar :
  x <> [] -> y <> [] -> z <> [] ->
  (read_mesh x y z ar = Raise SystemExit <-> length (py_set ar) <> 1%nat)
  /\ (length (py_set ar) = 1%nat -> exists m, read_mesh x y z ar = Ok m)
  /\ (forall m, read_mesh x y z ar = Ok m ->
        py_set ar = [volume m] /\ Forall (Qeq (volume m)) ar).
Proof.
  intros Hx Hy Hz. split; [|split].
  - rewrite read_mesh_exit by done. apply voxel_volume_exit.
  - intros Hlen. destruct (voxel_volume ar) as [v|e] eqn:Hv.
    + destruct (read_mesh_ok x y z ar v) as (m & Hm & _); eauto.
    + exfalso. revert Hv. unfold voxel_volume. rewrite Hlen. simpl.
      destruct ar; [done|discriminate].
  - intros m (_ & _ & _ & _ & _ & _ & Hv & _)%read_mesh_inv.
    apply voxel_volume_ok in Hv. split; [done|]. by apply py_set_single.
Qed.

Lemma volume_row_unique_witness :
  exists m, read_mesh [0; 10; 20] [0; 10] [0] [1000; 1000; 1000] = Ok m
         /\ py_set [1000; 1000; 1000] = [volume m].
Proof.
  destruct (volume_row_unique [0; 10; 20] [0; 10] [0] [1000; 1000; 1000])
    as (_ & Hok & Hvol); [discriminate..|].
  destruct (Hok eq_refl) as [m Hm]. exists m. split; [exact Hm|].
  exact (proj1 (Hvol m Hm)).
Defined.

Lemma range_collapse lo hi :
  (length (py_set [lo; hi]) =? 1)%nat = Qeq_bool lo hi.
Proof.
  unfold py_set. rewrite filter_cons, filter_nil.
  destruct (Qeq_bool lo hi); done.
Qed.

Lemma axis_spacing_collapse tr ar : tr.1 == tr.2 -> axis_spacing tr ar = Fin 1.
Proof.
  intros H. unfold axis_spacing. rewrite range_collapse.
  apply Qeq_bool_iff in H. by rewrite H.
Qed.

Lemma axis_spacing_extent tr ar :
  ~ tr.1 == tr.2 ->
  axis_spacing tr ar
  = fdiv (fsub tr.2 tr.1) (of_int (Z.of_nat (length ar) - 1)).
Proof.
  intros H. unfold axis_spacing. rewrite range_collapse.
  destruct (Qeq_bool tr.1 tr.2) eqn:E; [|done].
  by apply Qeq_bool_iff in E.
Qed.


(** C6, as stated, fails on the third axis: in a flat mesh its coordinate
    range collapses to one value, and its spacing is the volume over the
    product of the other two spacings, here 20 and not 1. *)
Lemma third_axis_collapse_not_one :
  exists m, read_mesh [0; 20] [0; 20] [0] [8000; 8000; 8000; 8000] = Ok m
    /\ (mnp_range m).2.1 == (mnp_range m).2.2
    /\ (mnp_spacing m).2 = Fin 20
    /\ (mnp_spacing m).2 <> Fin 1.
Proof.
  eexists. split; [reflexivity|]. split; [reflexivity|].
  split; [reflexivity|]. vm_compute. discriminate.
Qed.

(** C6, amended.  For every loaded mesh, the range of each of the first two
    axes is (minimum, maximum) of the axis; such an axis gets spacing 1
    when its range collapses to one value and (max - min)/(count - 1)
    otherwise; the spacing of the third axis is always the voxel volume
    divided by the product of the first two spacings, also when its range
    collapses.  The differences, the product and the quotients are those
    of float64. *)
Theorem spacing_per_axis x y z ar m :
  read_mesh x y z ar = Ok m ->
  let '(ar_m, ar_n, ar_p) := mnp_axis m in
  let '(tr_m, tr_n, tr_p) := mnp_range m in
  let '(dm, dn, dp) := mnp_spacing m in
  axis_range ar_m = Ok tr_m /\ axis_range ar_n = Ok tr_n
  /\ (tr_m.1 == tr_m.2 -> dm = Fin 1)
  /\ (~ tr_m.1 == tr_m.2 ->
      dm = fdiv (fsub tr_m.2 tr_m.1) (of_int (Z.of_nat (length ar_m) - 1)))
  /\ (tr_n.1 == tr_n.2 -> dn = Fin 1)
  /\ (~ tr_n.1 == tr_n.2 ->
      dn = fdiv (fsub tr_n.2 tr_n.1) (of_int (Z.of_nat (length ar_n) - 1)))
  /\ dp = fdiv (Fin (volume m)) (fmul dm dn).
Proof.
  intros (tr_m & tr_n & tr_p & Hm & Hn & Hp & _ & -> & -> & _ & ->)%read_mesh_inv.
  repeat split; try done.
  - apply axis_spacing_collapse.
  - apply axis_spacing_extent.
  - apply axis_spacing_collapse.
  - apply axis_spacing_extent.
Qed.

Lemma spacing_per_axis_witness :
  exists m, read_mesh [0; 10; 20] [0; 10] [0] [1000] = Ok m
    /\ (mnp_spacing m).1.1 = fdiv (fsub 20 0) (of_int (3 - 1))
    /\ (mnp_spacing m).2
       = fdiv (Fin (volume m)) (fmul (mnp_spacing m).1.1 (mnp_spacing m).1.2).
Proof.
  eexists. split; [reflexivity|].
  pose proof (spacing_per_axis [0; 10; 20] [0; 10] [0] [1000] _ eq_refl)
    as (_ & _ & _ & Hdm & _ & _ & Hdp).
  split; [|exact Hdp].
  apply Hdm. vm_compute. discriminate.
Defined.

Lemma np_round_nearest q : Qabs (q - inject_Z (np_round q)) <= 1 # 2.
Proof.
  unfold np_round, rint.
  pose proof (Qfloor_le q) as Hlo. pose proof (Qlt_floor q) as Hhi.
  rewrite inject_Z_plus in Hhi. change (inject_Z 1) with 1 in Hhi.
  apply Qabs_Qle_condition.
  destruct (q - inject_Z (Qfloor q) ?= 1 # 2) eqn:E.
  - apply Qeq_alt in E. destruct (Z.even (Qfloor q)).
    + lra.
    + rewrite inject_Z_plus. change (inject_Z 1) with 1. lra.
  - apply Qlt_alt in E. lra.
  - apply Qgt_alt in E. rewrite inject_Z_plus. change (inject_Z 1) with 1. lra.
Qed.

Lemma astype_int_id i : (- 2 ^ 63 <= i < 2 ^ 63)%Z -> astype_int i = i.
Proof.
  intros H. unfold astype_int.
  destruct (Z.leb_spec (- 2 ^ 63) i); [|lia].
  destruct (Z.ltb_spec i (2 ^ 63)); [done|lia].
Qed.

Lemma astype_int_out i :
  (i < - 2 ^ 63 \/ 2 ^ 63 <= i)%Z -> astype_int i = (- 2 ^ 63)%Z.
Proof.
  intros H. unfold astype_int.
  destruct (Z.leb_spec (- 2 ^ 63) i); [|done].
  destruct (Z.ltb_spec i (2 ^ 63)); [lia|done].
Qed.

Lemma voxel_index_clamp p lo d hi :
  (0 <= hi)%Z ->
  voxel_index p lo d (0%Z, hi)
  = match fdiv (fsub p lo) d with
    | Fin r => Ok (Z.max 0 (Z.min hi (astype_int (np_round r))))
    | Inf | NaN => Raise ValueError
    end.
Proof.
  intros Hhi. unfold voxel_index. simpl.
  destruct (fdiv (fsub p lo) d) as [r| |]; [|done..]. f_equal.
  destruct (Z.gtb_spec (astype_int (np_round r)) hi);
    destruct (Z.ltb_spec hi 0); try lia;
    destruct (Z.ltb_spec (astype_int (np_round r)) 0); lia.
Qed.

Lemma voxel_range_max ar tr : axis_range ar = Ok tr -> (0 <= (voxel_range ar).2)%Z.
Proof. destruct ar; [done|]. simpl. lia. Qed.

(** What [voxel_ijk] gives on a loaded mesh, by the three float quotients. *)
Lemma voxel_ijk_quotients x y z ar m px py pz :
  read_mesh x y z ar = Ok m ->
  let '(dm, dn, dp) := mnp_spacing m in
  let '(tr_m, tr_n, tr_p) := mnp_range m in
  let '(tr_i, tr_j, tr_k) := ijk_range m in
  (0 <= tr_i.2)%Z /\ (0 <= tr_j.2)%Z /\ (0 <= tr_k.2)%Z
  /\ voxel_ijk m (px, py, pz)
     = match fdiv (fsub px tr_m.1) dm, fdiv (fsub py tr_n.1) dn,
             fdiv (fsub pz tr_p.1) dp with
       | Fin qi, Fin qj, Fin qk =>
           Ok (Z.max 0 (Z.min tr_i.2 (astype_int (np_round qi))),
               Z.max 0 (Z.min tr_j.2 (astype_int (np_round qj))),
               Z.max 0 (Z.min tr_k.2 (astype_int (np_round qk))))
       | _, _, _ => Raise ValueError
       end.
Proof.
  intros Hm.
  pose proof Hm as (tr_m & tr_n & tr_p & Hrm & Hrn & Hrp & _ & _ & Hr & Hi & Hs)%read_mesh_inv.
  unfold voxel_ijk. rewrite Hr, Hi, Hs.
  apply voxel_range_max in Hrm, Hrn, Hrp.
  unfold voxel_range in *. simpl in *.
  split; [done|]. split; [done|]. split; [done|].
  rewrite !voxel_index_clamp by done.
  destruct (fdiv (fsub px tr_m.1) _) as [qi| |]; [|done..].
  destruct (fdiv (fsub py tr_n.1) _) as [qj| |]; [|done..].
  destruct (fdiv (fsub pz tr_p.1) _) as [qk| |]; done.
Qed.

(** The quotient is that of float64: on the centers 0, 0.1, 0.2, 0.3 the
    spacing is the float below 0.1, the quotient of 0.25 is the float 2.5,
    and the index is 2. *)
Lemma voxel_index_float_quotient :
  exists m,
    read_mesh [0; 3602879701896397 # 36028797018963968;
               3602879701896397 # 18014398509481984;
               5404319552844595 # 18014398509481984] [0] [0] [1] = Ok m
    /\ (mnp_spacing m).1.1 = Fin (7205759403792793 # 72057594037927936)
    /\ voxel_ijk m (1 # 4, 0, 0) = Ok (2, 0, 0)%Z.
Proof. eexists. split; [reflexivity|]. split; vm_compute; reflexivity. Qed.

(** C4.  For every loaded mesh and every agent position, the voxel indices
    are stored exactly when the three float quotients
    [(position - minimum) / spacing] are finite (else the cast raises a
    [ValueError]); each stored index lies between 0 and the maximum of its
    index range, and is the quotient rounded to a nearest integer, cast to
    int64 and cut to the range.  Where the rounded quotient is within int64
    the cast changes nothing, and the index is the nearest voxel index cut
    to the range, as the claim says.  Where it is [2^63] or more the cast
    gives [-2^63] and the index is 0, not the maximum of the range (a
    maximum below [2^63]).  On the mesh with the centers [0,10,20], [0,10]
    and [0] the agent at (9,4,0) has the voxel indices (1,0,0), and the
    agent at (1e30,4,0), far beyond the last center, the indices (0,0,0);
    the float 1e30 is the integer written out below. *)
Theorem voxel_snap_clamp :
  (forall x y z ar m,
     read_mesh x y z ar = Ok m ->
     forall px py pz : Q,
       let '(dm, dn, dp) := mnp_spacing m in
       let '(tr_m, tr_n, tr_p) := mnp_range m in
       let '(tr_i, tr_j, tr_k) := ijk_range m in
       (forall i j k,
          voxel_ijk m (px, py, pz) = Ok (i, j, k) ->
          (0 <= i <= tr_i.2)%Z /\ (0 <= j <= tr_j.2)%Z /\ (0 <= k <= tr_k.2)%Z
          /\ exists qi qj qk,
               fdiv (fsub px tr_m.1) dm = Fin qi
               /\ fdiv (fsub py tr_n.1) dn = Fin qj
               /\ fdiv (fsub pz tr_p.1) dp = Fin qk
               /\ i = Z.max 0 (Z.min tr_i.2 (astype_int (np_round qi)))
               /\ j = Z.max 0 (Z.min tr_j.2 (astype_int (np_round qj)))
               /\ k = Z.max 0 (Z.min tr_k.2 (astype_int (np_round qk))))
       /\ (forall qi qj qk,
             fdiv (fsub px tr_m.1) dm = Fin qi ->
             fdiv (fsub py tr_n.1) dn = Fin qj ->
             fdiv (fsub pz tr_p.1) dp = Fin qk ->
             exists i j k, voxel_ijk m (px, py, pz) = Ok (i, j, k))
       /\ (forall e, voxel_ijk m (px, py, pz) = Raise e -> e = ValueError))
  /\ (forall r : Q, Qabs (r - inject_Z (np_round r)) <= 1 # 2)
  /\ (forall i : Z, (- 2 ^ 63 <= i < 2 ^ 63)%Z -> astype_int i = i)
  /\ (forall hi i : Z,
        (0 <= hi < 2 ^ 63)%Z -> (2 ^ 63 <= i)%Z ->
        Z.max 0 (Z.min hi (astype_int i)) = 0%Z /\ Z.max 0 (Z.min hi i) = hi)
  /\ (exists m,
        read_mesh [0; 10; 20] [0; 10] [0] [1000; 1000; 1000; 1000; 1000; 1000]
        = Ok m
        /\ voxel_ijk m (9, 4, 0) = Ok (1, 0, 0)%Z
        /\ voxel_ijk m (1000000000000000019884624838656, 4, 0)
           = Ok (0, 0, 0)%Z).
Proof.
  split; [|split; [|split; [|split]]].
  - intros x y z ar m Hm px py pz.
    pose proof (voxel_ijk_quotients x y z ar m px py pz Hm) as H.
    destruct (mnp_spacing m) as [[dm dn] dp].
    destruct (mnp_range m) as [[tr_m tr_n] tr_p].
    destruct (ijk_range m) as [[tr_i tr_j] tr_k].
    destruct H as (Hi & Hj & Hk & ->).
    destruct (fdiv (fsub px tr_m.1) dm) as [qi| |];
      [|by split; [|split]; [done| |intros e [= <-]]..].
    destruct (fdiv (fsub py tr_n.1) dn) as [qj| |];
      [|by split; [|split]; [done| |intros e [= <-]]..].
    destruct (fdiv (fsub pz tr_p.1) dp) as [qk| |];
      [|by split; [|split]; [done| |intros e [= <-]]..].
    split; [|split; [by eauto|done]].
    intros i j k [= <- <- <-].
    split; [lia|]. split; [lia|]. split; [lia|].
    by exists qi, qj, qk.
  - apply np_round_nearest.
  - apply astype_int_id.
  - intros hi i Hhi Hi. rewrite astype_int_out by (right; exact Hi).
    assert (0 < 2 ^ 63)%Z by done. lia.
  - eexists. split; [reflexivity|]. split; vm_compute; reflexivity.
Qed.

Lemma voxel_snap_clamp_witness :
  exists m,
    read_mesh [0; 10; 20] [0; 10] [0] [1000; 1000; 1000; 1000; 1000; 1000] = Ok m
    /\ (0 <= 2 <= (ijk_range m).1.1.2)%Z
    /\ astype_int 2 = 2%Z
    /\ Z.max 0 (Z.min 2 (astype_int (2 ^ 63))) = 0%Z.
Proof.
  eexists. split; [reflexivity|].
  pose proof (proj1 voxel_snap_clamp [0; 10; 20] [0; 10] [0]
                [1000; 1000; 1000; 1000; 1000; 1000] _ eq_refl 25 4 0) as H.
  cbn [mnp_spacing mnp_range ijk_range] in H. destruct H as [H _].
  destruct (H 2 0 0)%Z as [Hi _]; [vm_compute; reflexivity|].
  split; [exact Hi|]. split.
  - apply (proj1 (proj2 (proj2 voxel_snap_clamp))). lia.
  - apply (proj1 (proj2 (proj2 (proj2 voxel_snap_clamp))) 2 (2 ^ 63))%Z; lia.
Defined.

End mesh_facts.

(** ** The cell label schema *)

Section schema_facts.
Import Cell Spec.

Lemma traverse_length {A B} (f : A -> result B) l l' :
  traverse f l = Ok l' -> length l' = length l.
Proof.
  revert l'. induction l as [|x l IH]; intros l'; simpl.
  - by intros [= <-].
  - destruct (f x) as [y|]; [|done]. simpl.
    destruct (traverse f l) as [ys|]; [|done]. simpl.
    intros [= <-]. simpl. by rewrite (IH ys).
Qed.

Lemma insert_by_key_length {A} (x : Z * A) l :
  length (insert_by_key x l) = S (length l).
Proof.
  induction l as [|y l IH]; simpl; [done|].
  destruct (x.1 <=? y.1); simpl; by rewrite ?IH.
Qed.

Lemma sort_by_key_length {A} (l : list (Z * A)) : length (sort_by_key l) = length l.
Proof.
  induction l as [|x l IH]; simpl; [done|].
  rewrite insert_by_key_length. by rewrite <- IH.
Qed.

Lemma values_sorted_length {V} (d : dict V) l :
  values_sorted_by_int_key d = Ok l -> length l = length d.
Proof.
  unfold values_sorted_by_int_key.
  destruct (traverse _ d) as [keyed|] eqn:E; [|done]. simpl.
  intros [= <-]. rewrite length_fmap, sort_by_key_length.
  by apply traverse_length in E.
Qed.

Lemma foldl_add_column {A} (f : A -> string) s_unit l : forall st, exists ds_unit,
  foldl (fun st a => add_column s_unit st (f a)) st l
  = ((st.1 ++ (f <$> l))%list, ds_unit).
Proof.
  induction l as [|a l IH]; intros st; simpl.
  - exists st.2. rewrite app_nil_r. by destruct st.
  - destruct (IH (add_column s_unit st (f a))) as [u ->].
    exists u. simpl. by rewrite <- app_assoc.
Qed.

Ltac fold_columns :=
  match goal with
  | |- context [foldl (fun st a => add_column ?u st (@?f a)) ?st0 ?l] =>
      let ds_unit := fresh "ds_unit" in
      destruct (foldl_add_column f u l st0) as [ds_unit ->]; exists ds_unit
  end.

Lemma foldl_append {A} (f : A -> string) l : forall ls : list string,
  foldl (fun ls a => (ls ++ [f a])%list) ls l = (ls ++ (f <$> l))%list.
Proof.
  induction l as [|a l IH]; intros ls; simpl.
  - by rewrite app_nil_r.
  - rewrite IH. by rewrite <- app_assoc.
Qed.

Lemma read_label_expand ds_substrate ds_celltype substrates celltypes st x_label :
  values_sorted_by_int_key ds_substrate = Ok substrates ->
  values_sorted_by_int_key ds_celltype = Ok celltypes ->
  exists ds_unit,
    read_label ds_substrate ds_celltype st x_label
    = Ok ((st.1 ++ expand substrates celltypes (text x_label) (size x_label))%list,
          ds_unit).
Proof.
  intros Hs Hc. unfold read_label, expand, convention_of.
  pose proof (values_sorted_length _ _ Hs) as Hls.
  pose proof (values_sorted_length _ _ Hc) as Hlc.
  destruct (is_in (text x_label) es_var_subs).
  { destruct (Nat.ltb_spec 0 (length ds_substrate)).
    - rewrite Hs. simpl. fold_columns.
      destruct substrates; [simpl in *; lia|done].
    - fold_columns. destruct substrates; [|simpl in *; lia].
      unfold by_index. by rewrite <- list_fmap_compose. }
  destruct (is_in (text x_label) es_var_cell).
  { destruct (Nat.ltb_spec 0 (length ds_celltype)).
    - rewrite Hc. simpl. fold_columns.
      destruct celltypes; [simpl in *; lia|done].
    - fold_columns. destruct celltypes; [|simpl in *; lia].
      unfold by_index. by rewrite <- list_fmap_compose. }
  destruct (is_in (text x_label) es_var_death).
  { fold_columns. done. }
  destruct (is_in (text x_label) es_var_spatial).
  { fold_columns. done. }
  eexists. f_equal. f_equal.
  destruct (Z.eqb_spec (size x_label) 1) as [->|Hne]; [done|].
  destruct (1 <? size x_label); [|done].
  by rewrite foldl_append.
Qed.

Lemma read_labels_expand ds_substrate ds_celltype substrates celltypes labels :
  values_sorted_by_int_key ds_substrate = Ok substrates ->
  values_sorted_by_int_key ds_celltype = Ok celltypes ->
  forall st, exists ds_unit,
    for_in (read_label ds_substrate ds_celltype) st labels
    = Ok ((st.1 ++ concat ((fun x => expand substrates celltypes (text x) (size x))
                             <$> labels))%list, ds_unit).
Proof.
  intros Hs Hc. induction labels as [|x labels IH]; intros st; simpl.
  - exists st.2. rewrite app_nil_r. by destruct st.
  - destruct (read_label_expand _ _ _ _ st x Hs Hc) as [u ->]. simpl.
    destruct (IH ((st.1 ++ expand substrates celltypes (text x) (size x))%list, u))
      as [u' ->].
    exists u'. simpl. by rewrite <- app_assoc.
Qed.


(** C1.  For every XML cell label list, the loop over the labels yields, in
    order, the columns of each label by the first rule that applies: a
    per-substrate name gives one column per resolved substrate label (per
    index below the width when there is no substrate table), else a
    per-agent-type name one column per resolved agent type label (per index
    when there is no table), else a per-death-model name [<name>_<index>]
    for each index below the width, else a spatial name the three columns
    [_x], [_y], [_z], else a name of width 1 is kept and a name of width
    above 1 gives [<name>_<zero-padded index>].  [death_rates] of width 2
    gives [death_rates_0], [death_rates_1]. *)
Theorem label_expansion :
  (forall ds_substrate ds_celltype substrates celltypes labels,
     values_sorted_by_int_key ds_substrate = Ok substrates ->
     values_sorted_by_int_key ds_celltype = Ok celltypes ->
     exists ds_unit,
       read_labels ds_substrate ds_celltype labels
       = Ok (concat ((fun x => expand substrates celltypes (text x) (size x))
                       <$> labels), ds_unit))
  /\ (forall substrates celltypes,
        expand substrates celltypes "death_rates" 2
        = ["death_rates_0"; "death_rates_1"]).
Proof.
  split.
  - intros ds_substrate ds_celltype substrates celltypes labels Hs Hc.
    destruct (read_labels_expand _ _ _ _ labels Hs Hc ([], [])) as [u Hu].
    exists u. exact Hu.
  - reflexivity.
Qed.

Lemma label_expansion_witness :
  exists ds_unit,
    read_labels [("1", "glucose"); ("0", "oxygen")] []
      [ {| text := "ID"; size := 1; units := "none" |};
        {| text := "position"; size := 3; units := "micron" |};
        {| text := "death_rates"; size := 2; units := "1/min" |};
        {| text := "secretion_rates"; size := 2; units := "1/min" |};
        {| text := "attack_rates"; size := 2; units := "1/min" |};
        {| text := "sample"; size := 2; units := "none" |} ]
    = Ok ([ "ID"; "position_x"; "position_y"; "position_z";
            "death_rates_0"; "death_rates_1";
            "oxygen_secretion_rates"; "glucose_secretion_rates";
            "attack_rates_0"; "attack_rates_1";
            "sample_000"; "sample_001" ], ds_unit).
Proof.
  exact (proj1 label_expansion [("1", "glucose"); ("0", "oxygen")] []
           ["oxygen"; "glucose"] [] _ eq_refl eq_refl).
Defined.

End schema_facts.

(** ** Agent types and the agent matrix *)

Section cell_facts.
Import Cell Spec.

Lemma dict_get_update {V} k k' (v : V) d :
  dict_get k (dict_update k' v d) = if String.eqb k k' then Some v else dict_get k d.
Proof.
  induction d as [|[k0 v0] d IH]; simpl.
  - done.
  - destruct (String.eqb_spec k' k0) as [->|Hne]; simpl.
    + destruct (String.eqb k k0); done.
    + rewrite IH. destruct (String.eqb_spec k k0) as [->|Hne'].
      * destruct (String.eqb_spec k0 k'); [congruence|done].
      * done.
Qed.

Lemma dict_get_update_all k items : forall d,
  dict_get k (update_all d items)
  = match dict_get k (reverse items) with
    | Some v => Some v
    | None => dict_get k d
    end.
Proof.
  unfold update_all.
  induction items as [|[k' v'] items IH] using rev_ind; intros d; [done|].
  rewrite foldl_app, reverse_app. simpl.
  rewrite dict_get_update. destruct (String.eqb k k'); [done|]. apply IH.
Qed.

Lemma read_celltype_tables_some settingxml cell_types labels :
  is_Some settingxml \/ is_Some cell_types ->
  read_celltype_tables settingxml cell_types labels
  = Ok (update_all (update_all [] (default [] settingxml)) (default [] cell_types),
        true).
Proof.
  unfold read_celltype_tables, read_settingxml, read_cell_types.
  intros [[b ->]|[a ->]]; simpl.
  - destruct cell_types; done.
  - destruct settingxml; done.
Qed.

Lemma read_cells_inv settingxml cell_types ds_substrate labels loadmat d :
  read_cells settingxml cell_types ds_substrate labels loadmat = Ok d ->
  exists st st',
    read_celltype_tables settingxml cell_types labels = Ok st
    /\ read_labels ds_substrate st.1 labels = Ok (ls_variable d, ds_unit d)
    /\ load_cells loadmat (ls_variable d) = Ok (ar_cell d)
    /\ check_shape (ar_cell d) (ls_variable d) = Ok tt
    /\ read_celltype_column (ls_variable d) (ar_cell d) st = Ok st'
    /\ ds_celltype d = st'.1
    /\ values_sorted_by_int_key st'.1 = Ok (ls_celltype d)
    /\ data d = store_data (ls_variable d) (ar_cell d).
Proof.
  unfold read_cells.
  destruct (read_celltype_tables _ _ _) as [st|] eqn:Hst; [|done]. simpl.
  destruct (read_labels _ _ _) as [[ls u]|] eqn:Hsch; [|done]. simpl.
  destruct (load_cells _ _) as [ar|] eqn:Hload; [|done]. simpl.
  destruct (check_shape _ _) as [[]|] eqn:Hshape; [|done]. simpl.
  destruct (read_celltype_column _ _ _) as [st'|] eqn:Hcol; [|done]. simpl.
  destruct (values_sorted_by_int_key _) as [lc|] eqn:Hsort; [|done]. simpl.
  intros [= <-]. simpl. exists st, st'. repeat split; done.
Qed.

Lemma check_shape_ok ar ls : check_shape ar ls = Ok tt <-> length ar = length ls.
Proof.
  unfold check_shape. destruct (Nat.eqb_spec (length ar) (length ls)); simpl; split; done.
Qed.

Lemma check_shape_exit ar ls :
  check_shape ar ls = Raise SystemExit <-> length ar <> length ls.
Proof.
  unfold check_shape. destruct (Nat.eqb_spec (length ar) (length ls)); simpl; split; done.
Qed.


(** C2.  For every bundle, a load that succeeds has as many expanded column
    names as the loaded matrix has rows, the matrix being the one of the
    file when the file could be read; and when the stages before the check
    succeed and the two numbers differ, the load is aborted by [sys.exit]. *)
Theorem schema_matches_matrix settingxml cell_types ds_substrate labels loadmat :
  (forall d,
     read_cells settingxml cell_types ds_substrate labels loadmat = Ok d ->
     length (ls_variable d) = length (ar_cell d)
     /\ forall ar, loadmat = Ok ar -> ar_cell d = ar)
  /\ (forall st sch ar,
        read_celltype_tables settingxml cell_types labels = Ok st ->
        read_labels ds_substrate st.1 labels = Ok sch ->
        loadmat = Ok ar ->
        length sch.1 <> length ar ->
        read_cells settingxml cell_types ds_substrate labels loadmat
        = Raise SystemExit).
Proof.
  split.
  - intros d (st & st' & _ & _ & Hload & Hshape & _)%read_cells_inv.
    apply check_shape_ok in Hshape. split; [done|].
    intros ar ->. simpl in Hload. by injection Hload.
  - intros st sch ar Hst Hsch -> Hne. unfold read_cells.
    rewrite Hst. simpl. rewrite Hsch. simpl.
    assert (Hexit : check_shape ar sch.1 = Raise SystemExit)
      by (apply check_shape_exit; congruence).
    rewrite Hexit. done.
Qed.

Lemma schema_matches_matrix_witness :
  (exists d,
     read_cells None (Some Example.xml_types) [] Example.labels (Ok Example.cells)
     = Ok d
     /\ length (ls_variable d) = length (ar_cell d))
  /\ read_cells None (Some Example.xml_types) [] Example.labels
       (Ok Example.cells_short) = Raise SystemExit.
Proof.
  split.
  - eexists. split; [reflexivity|].
    exact (proj1 (proj1 (schema_matches_matrix None (Some Example.xml_types) []
                           Example.labels (Ok Example.cells)) _ eq_refl)).
  - apply (proj2 (schema_matches_matrix None (Some Example.xml_types) []
                    Example.labels (Ok Example.cells_short))
             ([("0", "x")], true) Example.schema Example.cells_short);
      [reflexivity..|].
    simpl. lia.
Defined.

Lemma nth_replicate_nil {A} i n : nth i (replicate n (@nil A)) [] = [].
Proof.
  revert i. induction n as [|n IH]; intros [|i]; simpl; try done.
Qed.

Lemma dict_update_values {V} (P : V -> Prop) k v (d : dict V) :
  P v -> Forall (fun kv => P kv.2) d -> Forall (fun kv => P kv.2) (dict_update k v d).
Proof.
  intros Hv. induction 1 as [|[k' v'] d Hkv Hd IH]; simpl.
  - by repeat constructor.
  - destruct (String.eqb k k'); constructor; done.
Qed.

Lemma dict_update_keys {V} k (v : V) d c :
  c ∈ dict_keys (dict_update k v d) <-> c = k \/ c ∈ dict_keys d.
Proof.
  unfold dict_keys. induction d as [|[k' v'] d IH]; simpl.
  - set_solver.
  - destruct (String.eqb_spec k k') as [->|Hne]; simpl.
    + set_solver.
    + rewrite elem_of_cons, IH. set_solver.
Qed.

Lemma store_data_keys_gen ls (ar : list (list Q)) li : forall d c,
  c ∈ dict_keys (foldl (fun d i_col =>
                         dict_update (nth i_col ls "") (nth i_col ar []) d) d li)
  <-> c ∈ dict_keys d \/ exists i, i ∈ li /\ nth i ls "" = c.
Proof.
  induction li as [|i li IH]; intros d c; simpl.
  - set_solver.
  - rewrite IH, dict_update_keys. split.
    + intros [[->|H]|(j & Hj & <-)]; eauto.
      * right. exists i. split; [left|done].
      * right. exists j. split; [by right|done].
    + intros [H|(j & Hj & <-)]; [eauto|].
      apply elem_of_cons in Hj as [->|Hj]; eauto.
Qed.

Lemma store_data_keys ls ar c : c ∈ dict_keys (store_data ls ar) <-> c ∈ ls.
Proof.
  unfold store_data. rewrite store_data_keys_gen. split.
  - intros [H|(i & Hi & <-)]; [by apply elem_of_nil in H|].
    apply elem_of_seq in Hi. apply list_elem_of_In, nth_In. lia.
  - intros Hc. right. apply list_elem_of_In in Hc.
    destruct (In_nth _ _ "" Hc) as (i & Hi & <-).
    exists i. split; [|done]. apply elem_of_seq. lia.
Qed.

Lemma store_data_empty ls n :
  Forall (fun kv : string * list Q => kv.2 = []) (store_data ls (replicate n [])).
Proof.
  unfold store_data. generalize (seq 0 (length ls)).
  assert (H : Forall (fun kv : string * list Q => kv.2 = []) []) by constructor.
  revert H. generalize (@nil (string * list Q)).
  intros d Hd li. revert d Hd.
  induction li as [|i li IH]; intros d Hd; simpl; [done|].
  apply IH. apply (dict_update_values (fun v : list Q => v = [])); [|done].
  apply nth_replicate_nil.
Qed.


(** C3.  Loading a bundle whose matrix file is the corrupt file of a time
    step without agents ([loadmat] raises [ValueError]) does not fail where
    a load of a sound file would succeed (an agent type table is at hand,
    the labels expand): in place of the matrix comes one with a row per
    expanded column and no entry, the shape check passes, and the table of
    agent data has exactly the expanded columns, each with no row. *)
Theorem corrupt_matrix_zero_rows settingxml cell_types ds_substrate labels sch ls :
  is_Some settingxml \/ is_Some cell_types ->
  let ds :=
    update_all (update_all [] (default [] settingxml)) (default [] cell_types) in
  read_labels ds_substrate ds labels = Ok sch ->
  values_sorted_by_int_key ds = Ok ls ->
  exists d,
    read_cells settingxml cell_types ds_substrate labels (Raise ValueError) = Ok d
    /\ ls_variable d = sch.1
    /\ ar_cell d = replicate (length sch.1) []
    /\ check_shape (ar_cell d) (ls_variable d) = Ok tt
    /\ (forall c, c ∈ dict_keys (data d) <-> c ∈ sch.1)
    /\ Forall (fun kv => kv.2 = []) (data d).
Proof.
  intros Hsome ds Hsch Hls. unfold read_cells.
  rewrite (read_celltype_tables_some _ _ _ Hsome). simpl.
  fold ds. rewrite Hsch. simpl.
  assert (Hshape : check_shape (replicate (length sch.1) []) sch.1 = Ok tt)
    by (apply check_shape_ok; apply length_replicate).
  rewrite Hshape. simpl. rewrite Hls. simpl.
  eexists. split; [done|]. simpl. repeat split; try done.
  - by apply store_data_keys.
  - by apply store_data_keys.
  - apply store_data_empty.
Qed.

Lemma corrupt_matrix_zero_rows_witness :
  exists d,
    read_cells (Some Example.settings_types) None [] Example.labels
      (Raise ValueError) = Ok d
    /\ ls_variable d
       = ["ID"; "position_x"; "position_y"; "position_z"; "cell_type"]
    /\ ar_cell d = [[]; []; []; []; []].
Proof.
  destruct (corrupt_matrix_zero_rows (Some Example.settings_types) None []
              Example.labels Example.schema ["a"; "b"])
    as (d & Hd & Hls & Har & _); [left; eexists; reflexivity|reflexivity..|].
  exists d. split; [exact Hd|]. split; [exact Hls|exact Har].
Defined.

(** C5, as stated, fails when both tables are there: the table of the
    settings document is read although the output XML has a table, and its
    code 1, which the XML table lacks, stays in the result. *)
Lemma settings_table_not_skipped :
  exists d,
    read_cells (Some Example.settings_types) (Some Example.xml_types) []
               Example.labels (Ok Example.cells) = Ok d
    /\ ds_celltype d = [("0", "x"); ("1", "b")]
    /\ ds_celltype d
       <> first_tier (Some Example.xml_types) (Some Example.settings_types)
            [("0", "0"); ("1", "1")].
Proof.
  eexists. split; [reflexivity|]. split; [reflexivity|]. simpl. discriminate.
Qed.

(** C5, amended.  When the settings document or the type table of the
    output XML is at hand, the agent type labels are the table of the
    settings document with the table of the output XML written over it,
    whatever the labels and the matrix are: a code of the XML table has the
    name given there, any other code the name of the settings document.
    With one of the two only, the labels are that table. *)
Theorem celltype_tables_merged settingxml cell_types ds_substrate labels loadmat d :
  is_Some settingxml \/ is_Some cell_types ->
  read_cells settingxml cell_types ds_substrate labels loadmat = Ok d ->
  ds_celltype d
  = update_all (update_all [] (default [] settingxml)) (default [] cell_types)
  /\ (forall s_id,
        dict_get s_id (ds_celltype d)
        = match dict_get s_id (reverse (default [] cell_types)) with
          | Some s_celltype => Some s_celltype
          | None => dict_get s_id (reverse (default [] settingxml))
          end)
  /\ (settingxml = None -> ds_celltype d = update_all [] (default [] cell_types))
  /\ (cell_types = None -> ds_celltype d = update_all [] (default [] settingxml)).
Proof.
  intros Hsome (st & st' & Hst & _ & _ & _ & Hcol & -> & _)%read_cells_inv.
  rewrite (read_celltype_tables_some _ _ _ Hsome) in Hst. injection Hst as <-.
  unfold read_celltype_column in Hcol. simpl in Hcol. injection Hcol as <-. simpl.
  split; [done|]. split; [|split].
  - intros s_id. rewrite !dict_get_update_all.
    destruct (dict_get s_id (reverse (default [] cell_types))); [done|].
    by destruct (dict_get s_id (reverse (default [] settingxml))).
  - by intros ->.
  - by intros ->.
Qed.

Lemma celltype_tables_merged_witness :
  exists d,
    read_cells (Some Example.settings_types) (Some Example.xml_types) []
               Example.labels (Ok Example.cells) = Ok d
    /\ dict_get "0" (ds_celltype d) = Some "x"
    /\ dict_get "1" (ds_celltype d) = Some "b".
Proof.
  eexists. split; [reflexivity|].
  pose proof (celltype_tables_merged
                (Some Example.settings_types) (Some Example.xml_types) []
                Example.labels (Ok Example.cells) _
                (or_introl (ex_intro _ _ eq_refl)) eq_refl) as (_ & Hget & _).
  split; [exact (Hget "0")|exact (Hget "1")].
Defined.

(** The fallback tiers are out of reach: without settings document and
    without type table in the output XML, the first label node stops the
    load at the attribute [tex]. *)
Lemma celltype_fallback_raises ds_substrate x_label labels loadmat :
  read_cells None None ds_substrate (x_label :: labels) loadmat
  = Raise AttributeError.
Proof. reflexivity. Qed.

End cell_facts.

(** ** The data frame accessors *)

Section frame_facts.
Import Frame.

Lemma filter_delete_attribute es_coor df values drop keep es_delete :
  filter_delete es_coor df values drop keep = Ok es_delete ->
  es_delete ⊆ list_to_set (columns df) ∖ es_coor.
Proof.
  unfold filter_delete.
  set (es_attribute := list_to_set (columns df) ∖ es_coor).
  set (es0 := if (0 <? size keep)%nat then es_attribute ∖ keep
              else es_attribute ∩ drop).
  assert (H0 : es0 ⊆ es_attribute)
    by (unfold es0; destruct (0 <? size keep)%nat; set_solver).
  destruct (1 <? values); [|by intros [= <-]].
  apply (for_in_invariant (fun es : gset string => es ⊆ es_attribute)); [|done].
  intros es s_column es' Hin Hes.
  destruct (loc_column df s_column) as [se|]; [|done]. simpl.
  apply elem_of_elements in Hin.
  destruct (_ <? values); intros [= <-]; set_solver.
Qed.

Lemma columns_drop es_delete df c :
  c ∈ columns (Frame.drop es_delete df) <-> c ∈ columns df /\ c ∉ es_delete.
Proof.
  unfold Frame.drop. simpl. rewrite list_elem_of_filter, bool_decide_eq_true. tauto.
Qed.

Lemma columns_sort_values ls_key df df' :
  sort_values ls_key df = Ok df' -> columns df' = columns df.
Proof.
  unfold sort_values. destruct (traverse _ _); [|done]. simpl. by intros [= <-].
Qed.

Lemma columns_loc_z_slice z df df' :
  loc_z_slice z df = Ok df' -> columns df' = columns df.
Proof.
  unfold loc_z_slice. destruct (position _ _); [|done]. by intros [= <-].
Qed.

Lemma elem_of_insert_label c s ls : c ∈ insert_label s ls <-> c = s \/ c ∈ ls.
Proof.
  induction ls as [|s' ls IH]; simpl.
  - set_solver.
  - destruct (String.leb s s'); [set_solver|].
    rewrite elem_of_cons, IH. set_solver.
Qed.

Lemma elem_of_sorted c ls : c ∈ sorted ls <-> c ∈ ls.
Proof.
  unfold sorted. induction ls as [|s ls IH]; simpl; [done|].
  rewrite elem_of_insert_label, IH. set_solver.
Qed.

Lemma kept_after_drop es_coor df values drop keep es_delete c :
  filter_delete es_coor df values drop keep = Ok es_delete ->
  c ∈ es_coor -> c ∈ columns df -> c ∈ columns (Frame.drop es_delete df).
Proof.
  intros Hdel%filter_delete_attribute Hc Hin.
  apply columns_drop. split; [done|]. set_solver.
Qed.


(** C10.  For every call of [get_conc_df] and of [get_cell_df] that gives a
    data frame, whatever [values], [drop] and [keep] are, every column of
    the stored frame with a name of the coordinate set is a column of the
    frame given, and the index stays (renumbered under the name [index] for
    the concentrations): the labels to delete, from the allow or deny list
    as from the count of distinct values, are taken among the columns
    outside the coordinate set. *)
Theorem coordinate_columns_kept :
  (forall es_coor df values drop keep es_delete,
     filter_delete es_coor df values drop keep = Ok es_delete ->
     es_delete ⊆ list_to_set (columns df) ∖ es_coor)
  /\ (forall ar_p_axis df_conc z_slice halt values drop keep df,
        get_conc_df ar_p_axis df_conc z_slice halt values drop keep = Ok df ->
        index_name df = "index"
        /\ forall c, c ∈ es_coor_conc -> c ∈ columns df_conc -> c ∈ columns df)
  /\ (forall df_cell values drop keep df,
        get_cell_df df_cell values drop keep = Ok df ->
        index_name df = index_name df_cell
        /\ forall c, c ∈ es_coor_cell -> c ∈ columns df_cell -> c ∈ columns df).
Proof.
  split; [|split].
  - apply filter_delete_attribute.
  - intros ar_p_axis df_conc z_slice halt values drop keep df.
    unfold get_conc_df. destruct (_ && _); [done|].
    destruct (match z_slice with None => _ | _ => _ end) as [z|]; [|done]. simpl.
    destruct (match z with None => _ | _ => _ end) as [df1|] eqn:Hz; [|done]. simpl.
    assert (Hcols : columns df1 = columns df_conc).
    { destruct z; [by apply columns_loc_z_slice in Hz|by injection Hz as <-]. }
    destruct (filter_delete _ _ _ _ _) as [es_delete|] eqn:Hdel; [|done]. simpl.
    destruct (sort_values _ _) as [df2|] eqn:Hsort; [|done]. simpl.
    intros [= <-]. split; [done|]. intros c Hc Hin. simpl.
    rewrite (columns_sort_values _ _ _ Hsort).
    eapply kept_after_drop; [done..|]. by rewrite Hcols.
  - intros df_cell values drop keep df.
    unfold get_cell_df. destruct (_ && _); [done|].
    destruct (filter_delete _ _ _ _ _) as [es_delete|] eqn:Hdel; [|done]. simpl.
    intros Hsort. split.
    + unfold sort_values in Hsort. destruct (traverse _ _); [|done].
      by injection Hsort as <-.
    + intros c Hc Hin. rewrite (columns_sort_values _ _ _ Hsort). simpl.
      apply elem_of_sorted. by eapply kept_after_drop.
Qed.

Lemma coordinate_columns_kept_witness :
  (exists df,
     get_cell_df Example.df_cell 2 ∅ {[ "dead" ]} = Ok df
     /\ columns df = ["position_x"; "time"; "voxel_i"]
     /\ "time" ∈ columns df)
  /\ (exists df,
        get_conc_df [0; 10]%Q Example.df_conc (Some 4%Q) false 2 {[ "time" ]} ∅
        = Ok df
        /\ columns df = ["voxel_i"; "voxel_j"; "voxel_k"; "mesh_center_p"; "time"]
        /\ "time" ∈ columns df).
Proof.
  split.
  - edestruct (proj2 (proj2 coordinate_columns_kept) Example.df_cell 2 ∅
                 {[ "dead" ]}) as [_ Hkept]; [reflexivity|].
    eexists. split; [reflexivity|]. split; [reflexivity|].
    apply (Hkept "time").
    + vm_compute. reflexivity.
    + vm_compute. do 4 right. left.
  - edestruct (proj1 (proj2 coordinate_columns_kept) [0; 10]%Q Example.df_conc
                 (Some 4%Q) false 2 {[ "time" ]} ∅) as [_ Hkept]; [reflexivity|].
    eexists. split; [reflexivity|]. split; [reflexivity|].
    apply (Hkept "time").
    + vm_compute. reflexivity.
    + vm_compute. do 5 right. left.
Defined.

End frame_facts.

(** ** Accessors and aliasing *)

Section access_facts.
Import Access.

Lemma fresh_not_in arrays : arrays !! fresh arrays = None.
Proof.
  apply not_elem_of_dom. intros Hin. apply elem_of_elements in Hin.
  assert (H : forall l : list nat, forall r, r ∈ l -> (r <= foldr Nat.max O l)%nat).
  { induction l as [|a l IH]; intros r Hr; [by apply elem_of_nil in Hr|].
    simpl. apply elem_of_cons in Hr as [->|Hr]; [lia|].
    specialize (IH r Hr). lia. }
  specialize (H _ _ Hin). unfold fresh in H.
  exact (Nat.nle_succ_diag_l _ H).
Qed.

(** The array of [get_mesh_coordinate] is the caller's own: writing to it
    leaves the array of the snapshot as it was. *)
Lemma get_mesh_coordinate_independent self i v :
  is_Some (arrays self !! mnp_coordinate self) ->
  let '(self1, r) := get_mesh_coordinate self in
  arrays (setitem r i v self1) !! mnp_coordinate self
  = arrays self !! mnp_coordinate self.
Proof.
  intros Hsome. unfold get_mesh_coordinate, setitem. simpl.
  assert (Hne : fresh (arrays self) <> mnp_coordinate self).
  { intros Heq. rewrite <- Heq, fresh_not_in in Hsome. by destruct Hsome. }
  rewrite lookup_alter_ne by done. by rewrite lookup_insert_ne.
Qed.

(** C9.  The list that [get_mesh_mnp_axis] returns holds the array objects
    of the snapshot themselves: after the caller writes a new value into
    the first of them, a later call of the accessor shows other numbers
    than before. *)
Theorem mnp_axis_arrays_shared self r lar x ar v :
  mnp_axis self = r :: lar ->
  arrays self !! r = Some (x :: ar) ->
  v <> x ->
  let '(self1, ret) := get_mesh_mnp_axis self in
  let self2 := setitem (hd O ret) 0 v self1 in
  contents self2 (get_mesh_mnp_axis self2).2
  <> contents self (get_mesh_mnp_axis self).2
  /\ hd [] (contents self2 (get_mesh_mnp_axis self2).2) = v :: ar.
Proof.
  intros Haxis Hr Hv. unfold get_mesh_mnp_axis, contents, setitem. simpl.
  rewrite Haxis. simpl. rewrite lookup_alter_eq, Hr. simpl.
  split; [|done]. intros [= Heq _]. done.
Qed.

Lemma mnp_axis_arrays_shared_witness :
  let '(self1, ret) := get_mesh_mnp_axis Example.snapshot in
  let self2 := setitem (hd O ret) 0 99 self1 in
  contents Example.snapshot (get_mesh_mnp_axis Example.snapshot).2
  = [[0; 10; 20]; [0; 10]; [0]]%Q
  /\ hd [] (contents self2 (get_mesh_mnp_axis self2).2) = [99; 10; 20]%Q.
Proof.
  split; [reflexivity|].
  exact (proj2 (mnp_axis_arrays_shared Example.snapshot 0%nat [1%nat; 2%nat]
                  0%Q [10; 20]%Q 99%Q eq_refl eq_refl
                  ltac:(discriminate))).
Defined.

End access_facts.

(** ** Decimal numerals: [int(str(i))] *)

Section decimal_facts.
Import Notions.

Lemma int_digits_digit acc prev c s k :
  digit_of c = Some k -> Ascii.eqb c "_" = false ->
  int_digits acc prev (String c s) = int_digits (10 * acc + k) true s.
Proof. intros Hk Hc. cbn [int_digits]. by rewrite Hc, Hk. Qed.

Lemma int_digits_uint d : forall acc,
  int_digits acc true (NilEmpty.string_of_uint d) = Ok (uint_val d acc).
Proof.
  induction d; intros acc; cbn [NilEmpty.string_of_uint uint_val]; [done|..];
    erewrite int_digits_digit by (vm_compute; reflexivity);
    rewrite IHd; do 2 f_equal; lia.
Qed.

Lemma int_digits_uint_first d acc :
  d <> Decimal.Nil ->
  int_digits acc false (NilEmpty.string_of_uint d) = Ok (uint_val d acc).
Proof.
  destruct d; intros Hd; cbn [NilEmpty.string_of_uint uint_val]; [done|..];
    erewrite int_digits_digit by (vm_compute; reflexivity);
    rewrite int_digits_uint; do 2 f_equal; lia.
Qed.

Lemma of_uint_acc_val d : forall acc,
  Zpos (Pos.of_uint_acc d acc) = uint_val d (Zpos acc).
Proof.
  induction d; intros acc; cbn [Pos.of_uint_acc uint_val]; [done|..];
    rewrite IHd; f_equal; lia.
Qed.

Lemma of_uint_val d : Z.of_N (Pos.of_uint d) = uint_val d 0.
Proof.
  induction d; cbn [Pos.of_uint uint_val]; [done|done|..];
    cbn [Z.of_N]; rewrite of_uint_acc_val; f_equal.
Qed.

Lemma to_uint_val p : uint_val (Pos.to_uint p) 0 = Zpos p.
Proof. by rewrite <- of_uint_val, DecimalPos.Unsigned.of_to. Qed.

Lemma to_uint_not_nil p : Pos.to_uint p <> Decimal.Nil.
Proof.
  intros H. pose proof (DecimalPos.Unsigned.of_to p) as Hp.
  rewrite H in Hp. discriminate.
Qed.

Lemma digits_only_uint d : digits_only (NilEmpty.string_of_uint d) = true.
Proof. induction d; simpl; done. Qed.

Lemma digit_not_int_space c d : digit_of c = Some d -> is_int_space c = false.
Proof.
  intros Hd%digit_of_not_space.
  destruct (is_int_space c) eqn:E; [|done].
  apply is_int_space_is_space in E. congruence.
Qed.

Lemma int_rstrip_digits s : digits_only s = true -> int_rstrip s = s.
Proof.
  induction s as [|c s IH]; simpl; [done|].
  destruct (digit_of c) eqn:Hc; [|done]. simpl. intros Hs.
  rewrite (digit_not_int_space _ _ Hc), (IH Hs). done.
Qed.

Lemma int_lstrip_digits s : digits_only s = true -> int_lstrip s = s.
Proof.
  destruct s as [|c s]; simpl; [done|].
  destruct (digit_of c) eqn:Hc; [|done]. simpl. intros _.
  by rewrite (digit_not_int_space _ _ Hc).
Qed.

Lemma py_int_uint d :
  d <> Decimal.Nil -> py_int (NilEmpty.string_of_uint d) = Ok (uint_val d 0).
Proof.
  intros Hd. unfold py_int.
  rewrite int_lstrip_digits, int_rstrip_digits by apply digits_only_uint.
  rewrite <- (int_digits_uint_first d 0 Hd).
  destruct d; done.
Qed.

Lemma py_int_neg_uint d :
  d <> Decimal.Nil ->
  py_int (String "-" (NilEmpty.string_of_uint d)) = Ok (- uint_val d 0).
Proof.
  intros Hd. unfold py_int.
  change (int_lstrip (String "-" (NilEmpty.string_of_uint d)))
    with (String "-" (NilEmpty.string_of_uint d)).
  change (int_rstrip (String "-" (NilEmpty.string_of_uint d)))
    with (String "-" (int_rstrip (NilEmpty.string_of_uint d))).
  rewrite int_rstrip_digits by apply digits_only_uint.
  rewrite (int_digits_uint_first d 0 Hd). done.
Qed.

(** [int(str(i)) == i] *)
Lemma py_int_str i : py_int (py_str i) = Ok i.
Proof.
  unfold py_str. destruct i as [|p|p]; simpl.
  - reflexivity.
  - rewrite py_int_uint by apply to_uint_not_nil. by rewrite to_uint_val.
  - rewrite py_int_neg_uint by apply to_uint_not_nil. by rewrite to_uint_val.
Qed.

End decimal_facts.

(** ** Sorting by integer key; the substrate table *)

Section sort_facts.
Import Notions.
Context {A : Type}.

Lemma insert_by_key_perm (x : Z * A) l : Permutation (insert_by_key x l) (x :: l).
Proof.
  induction l as [|y l IH]; simpl; [done|].
  destruct (x.1 <=? y.1); [done|].
  rewrite IH. apply perm_swap.
Qed.

Lemma sort_by_key_perm (l : list (Z * A)) : Permutation (sort_by_key l) l.
Proof.
  induction l as [|x l IH]; simpl; [done|].
  rewrite insert_by_key_perm. by constructor.
Qed.

Lemma insert_by_key_sorted (x : Z * A) l :
  StronglySorted key_le l -> StronglySorted key_le (insert_by_key x l).
Proof.
  induction 1 as [|y l Hl IH Hy]; simpl.
  - repeat constructor.
  - destruct (Z.leb_spec x.1 y.1).
    + constructor; [by constructor|].
      constructor; [done|].
      eapply Forall_impl; [exact Hy|]. unfold key_le. intros; simpl in *; lia.
    + constructor; [done|].
      rewrite insert_by_key_perm. constructor; [unfold key_le; lia|done].
Qed.

Lemma sort_by_key_sorted (l : list (Z * A)) : StronglySorted key_le (sort_by_key l).
Proof.
  induction l as [|x l IH]; simpl; [constructor|].
  by apply insert_by_key_sorted.
Qed.

Lemma sort_by_key_id (l : list (Z * A)) :
  StronglySorted key_le l -> sort_by_key l = l.
Proof.
  induction 1 as [|x l Hl IH Hx]; simpl; [done|].
  rewrite IH. destruct l as [|y l]; [done|]. simpl.
  inversion_clear Hx as [|? ? Hxy _]. unfold key_le in Hxy.
  destruct (Z.leb_spec x.1 y.1); [done|lia].
Qed.

End sort_facts.

Section dict_facts.

Lemma traverse_inv {A B} (f : A -> result B) l l' :
  traverse f l = Ok l' -> Forall2 (fun x y => f x = Ok y) l l'.
Proof.
  revert l'. induction l as [|x l IH]; intros l'; simpl.
  - intros [= <-]. constructor.
  - destruct (f x) as [y|] eqn:E; [|done]. simpl.
    destruct (traverse f l) as [ys|]; [|done]. simpl.
    intros [= <-]. constructor; [done|]. by apply IH.
Qed.

Lemma dict_update_fresh {V} k (v : V) d :
  k ∉ dict_keys d -> dict_update k v d = (d ++ [(k, v)])%list.
Proof.
  unfold dict_keys. induction d as [|[k' v'] d IH]; simpl; [done|].
  intros Hk. apply not_elem_of_cons in Hk as [Hne Hk].
  destruct (String.eqb_spec k k'); [done|]. by rewrite IH.
Qed.

Lemma dict_get_lookup {V} (d : dict V) : forall (i : nat) k v,
  d !! i = Some (k, v) ->
  (forall (j : nat) k' v', (j < i)%nat -> d !! j = Some (k', v') -> k' <> k) ->
  dict_get k d = Some v.
Proof.
  induction d as [|[k0 v0] d IH]; intros i k v Hi Hfresh; [done|].
  simpl. destruct i as [|i].
  - injection Hi as -> ->. by rewrite String.eqb_refl.
  - destruct (String.eqb_spec k k0) as [->|Hne].
    + exfalso. apply (Hfresh O k0 v0); [lia|done|done].
    + apply (IH i); [done|].
      intros j k' v' Hj Hl. apply (Hfresh (S j) k' v'); [lia|done].
Qed.

Lemma py_str_inj i j : py_str i = py_str j -> i = j.
Proof.
  intros H. pose proof (py_int_str i) as Hi. rewrite H, py_int_str in Hi.
  by injection Hi.
Qed.

End dict_facts.

Section substrate_facts.
Import Notions.
Import Substrate.

Let entry (x : Z * string) : string * string := (py_str x.1, x.2).

Lemma foldl_substrates names : forall (k : nat) (ds : dict string),
  (forall s, s ∈ dict_keys ds -> exists j, (0 <= j < Z.of_nat k) /\ s = py_str j) ->
  foldl (fun ds (x : Z * string) => dict_update (py_str x.1) x.2 ds) ds
        (zip (Z.of_nat <$> seq k (length names)) names)
  = (ds ++ (entry <$> zip (Z.of_nat <$> seq k (length names)) names))%list.
Proof.
  induction names as [|s names IH]; intros k ds Hds; simpl.
  - by rewrite app_nil_r.
  - rewrite dict_update_fresh.
    + rewrite (IH (S k)).
      * by rewrite <- app_assoc.
      * intros s' Hs'. unfold dict_keys in Hs'. rewrite fmap_app in Hs'.
        apply elem_of_app in Hs' as [Hs'|Hs'].
        -- destruct (Hds s' Hs') as (j & Hj & ->). exists j. split; [lia|done].
        -- simpl in Hs'. apply list_elem_of_singleton in Hs' as ->.
           exists (Z.of_nat k). split; [lia|done].
    + intros Hin. destruct (Hds _ Hin) as (j & Hj & Heq).
      apply py_str_inj in Heq. lia.
Qed.

Lemma read_substrates_entries names :
  read_substrates true names = entry <$> enumerate names.
Proof.
  unfold read_substrates, enumerate, range. rewrite Nat2Z.id.
  rewrite (foldl_substrates names 0 []); [done|].
  intros s Hs. by apply elem_of_nil in Hs.
Qed.

Lemma traverse_entries (l : list (Z * string)) :
  traverse (fun kv : string * string => i ← py_int kv.1; Ok (i, kv.2)) (entry <$> l)
  = Ok l.
Proof.
  induction l as [|[i s] l IH]; [done|].
  simpl. rewrite py_int_str. simpl.
  change (list_fmap _ _ entry l) with (entry <$> l). rewrite IH. done.
Qed.

Lemma enumerate_sorted (names : list string) : forall k,
  StronglySorted key_le (zip (Z.of_nat <$> seq k (length names)) names).
Proof.
  induction names as [|s names IH]; intros k; simpl; [constructor|].
  constructor; [apply IH|].
  apply Forall_forall. intros [j s'] Hin.
  apply elem_of_zip_l in Hin. apply list_elem_of_fmap in Hin as (n & -> & Hn).
  apply elem_of_seq in Hn. unfold key_le. simpl. lia.
Qed.

Lemma enumerate_values (names : list string) : forall k,
  (zip (Z.of_nat <$> seq k (length names)) names).*2 = names.
Proof.
  induction names as [|s names IH]; intros k; simpl; [done|]. by rewrite IH.
Qed.

Lemma read_substrates_sorted names :
  values_sorted_by_int_key (read_substrates true names) = Ok names.
Proof.
  unfold values_sorted_by_int_key.
  rewrite read_substrates_entries, traverse_entries. simpl.
  unfold enumerate, range. rewrite Nat2Z.id.
  rewrite sort_by_key_id by apply enumerate_sorted.
  by rewrite enumerate_values.
Qed.

(** X1.  The substrate table numbers the substrates in the order in which
    the microenvironment declares them: the identifier of the i-th variable
    is [str(i)], the table has one entry per variable, and the substrate
    list, read off the table by increasing identifier, is the list of the
    declared names in their order.  Without microenvironment the table is
    empty. *)
Theorem substrates_in_declaration_order names :
  substrate_list (read_substrates true names) = Ok names
  /\ (forall (i : nat) s, names !! i = Some s ->
        dict_get (py_str (Z.of_nat i)) (read_substrates true names) = Some s)
  /\ length (read_substrates true names) = length names
  /\ read_substrates false names = [].
Proof.
  split; [|split; [|split]].
  - apply read_substrates_sorted.
  - intros i s Hs. rewrite read_substrates_entries.
    assert (Hat : forall j : nat, (entry <$> enumerate names) !! j
                   = (fun s => (py_str (Z.of_nat j), s)) <$> names !! j).
    { intros j. unfold enumerate, range. rewrite Nat2Z.id.
      rewrite list_lookup_fmap, lookup_zip_with, list_lookup_fmap.
      destruct (names !! j) as [s'|] eqn:Hj.
      - rewrite lookup_seq_lt by (by apply lookup_lt_Some in Hj). done.
      - apply lookup_ge_None in Hj. rewrite lookup_seq_ge by done. done. }
    apply (dict_get_lookup _ i).
    + by rewrite Hat, Hs.
    + intros j k' v' Hj Hl. rewrite Hat in Hl.
      destruct (names !! j); [|done]. injection Hl as <- _.
      intros Heq%py_str_inj. lia.
  - rewrite read_substrates_entries. unfold enumerate, range.
    rewrite Nat2Z.id, length_fmap, length_zip, length_fmap, length_seq. lia.
  - done.
Qed.

Lemma substrates_in_declaration_order_witness :
  substrate_list (read_substrates true ["oxygen"; "glucose"])
  = Ok ["oxygen"; "glucose"]
  /\ dict_get "1" (read_substrates true ["oxygen"; "glucose"]) = Some "glucose".
Proof.
  destruct (substrates_in_declaration_order ["oxygen"; "glucose"])
    as (Hlist & Hget & _).
  split; [exact Hlist|]. exact (Hget 1%nat "glucose" eq_refl).
Defined.

End substrate_facts.

(** ** The agent part of the load *)

Section more_cell_facts.
Import Notions.
Import Cell Spec.

Lemma values_sorted_spec {V} (d : dict V) ls :
  values_sorted_by_int_key d = Ok ls ->
  exists keyed sorted : list (Z * V),
    Forall2 (fun kv p => py_int kv.1 = Ok p.1 /\ kv.2 = p.2) d keyed
    /\ Permutation sorted keyed
    /\ StronglySorted key_le sorted
    /\ ls = sorted.*2.
Proof.
  unfold values_sorted_by_int_key.
  destruct (traverse _ d) as [keyed|] eqn:E; [|done]. simpl. intros [= <-].
  exists keyed, (sort_by_key keyed). split; [|split; [|split]].
  - apply traverse_inv in E. eapply Forall2_impl; [exact E|].
    intros [k v] [i v']. simpl. destruct (py_int k); [|done]. simpl.
    by intros [= -> ->].
  - apply sort_by_key_perm.
  - apply sort_by_key_sorted.
  - done.
Qed.

(** X2.  After a load the list of agent type labels holds the labels of
    the type table, one per entry, ordered by the integer value of their
    codes: every code of the table reads as an integer. *)
Theorem celltype_list_by_code settingxml cell_types ds_substrate labels loadmat d :
  read_cells settingxml cell_types ds_substrate labels loadmat = Ok d ->
  exists keyed sorted : list (Z * string),
    Forall2 (fun kv p => py_int kv.1 = Ok p.1 /\ kv.2 = p.2) (ds_celltype d) keyed
    /\ Permutation sorted keyed
    /\ StronglySorted key_le sorted
    /\ ls_celltype d = sorted.*2.
Proof.
  intros (st & st' & _ & _ & _ & _ & _ & -> & Hsort & _)%read_cells_inv.
  by apply values_sorted_spec.
Qed.

Lemma celltype_list_by_code_witness :
  exists d keyed sorted,
    read_cells (Some Example.settings_types) (Some Example.xml_types) []
               Example.labels (Ok Example.cells) = Ok d
    /\ Forall2 (fun kv p => py_int kv.1 = Ok p.1 /\ kv.2 = p.2)
               (ds_celltype d) keyed
    /\ StronglySorted key_le sorted
    /\ ls_celltype d = sorted.*2.
Proof.
  eexists.
  edestruct (celltype_list_by_code (Some Example.settings_types)
               (Some Example.xml_types) [] Example.labels (Ok Example.cells))
    as (keyed & sorted & Hcodes & _ & Hsorted & Hlist); [reflexivity|].
  exists keyed, sorted. split; [reflexivity|]. split; [exact Hcodes|].
  split; [exact Hsorted|exact Hlist].
Defined.

Lemma store_data_lookup_gen ls (ar : list (list Q)) c i : forall l2 l1 d,
  nth i ls "" = c ->
  (forall j, j ∈ l2 -> nth j ls "" <> c) ->
  dict_get c (foldl (fun d i_col =>
                       dict_update (nth i_col ls "") (nth i_col ar []) d)
                    d (l1 ++ i :: l2)%list)
  = Some (nth i ar []).
Proof.
  intros l2 l1 d Hi Hl2. rewrite foldl_app. simpl.
  set (d1 := dict_update _ _ _).
  assert (Hd1 : dict_get c d1 = Some (nth i ar [])).
  { unfold d1. rewrite dict_get_update, Hi, String.eqb_refl. done. }
  clearbody d1. revert d1 Hd1.
  induction l2 as [|j l2 IH]; intros d1 Hd1; [done|].
  simpl. apply IH.
  - intros j' Hj'. apply Hl2. by right.
  - rewrite dict_get_update.
    destruct (String.eqb_spec c (nth j ls "")) as [Heq|]; [|done].
    exfalso. apply (Hl2 j); [left|done].
Qed.

Lemma store_data_lookup ls ar (i : nat) c :
  ls !! i = Some c ->
  (forall j : nat, (i < j)%nat -> ls !! j <> Some c) ->
  dict_get c (store_data ls ar) = Some (nth i ar []).
Proof.
  intros Hi Hlast. unfold store_data.
  pose proof (lookup_lt_Some _ _ _ Hi) as Hlt.
  replace (seq 0 (length ls))
    with (seq 0 i ++ i :: seq (S i) (length ls - S i))%list.
  - apply store_data_lookup_gen.
    + by apply nth_lookup_Some.
    + intros j Hj. apply elem_of_seq in Hj. intros Hc.
      apply (Hlast j); [lia|].
      destruct (lookup_lt_is_Some_2 ls j) as [c' Hc']; [lia|].
      rewrite (nth_lookup_Some _ _ _ _ Hc') in Hc. by rewrite Hc', Hc.
  - change (i :: seq (S i) (length ls - S i)) with (seq i (S (length ls - S i))).
    rewrite <- seq_app. f_equal. lia.
Qed.

(** X4.  After a load the data dictionary maps a column name to the row of
    the agent matrix at the position of the name in the column list; where a
    name occurs more than once, at its last position. *)
Theorem data_column_is_matrix_row settingxml cell_types ds_substrate labels loadmat d :
  read_cells settingxml cell_types ds_substrate labels loadmat = Ok d ->
  forall (i : nat) c,
    ls_variable d !! i = Some c ->
    (forall j : nat, (i < j)%nat -> ls_variable d !! j <> Some c) ->
    exists ar_row,
      ar_cell d !! i = Some ar_row /\ dict_get c (data d) = Some ar_row.
Proof.
  intros (st & st' & _ & _ & _ & Hshape & _ & _ & _ & ->)%read_cells_inv.
  intros i c Hi Hlast. apply check_shape_ok in Hshape.
  destruct (lookup_lt_is_Some_2 (ar_cell d) i) as [ar_row Hrow].
  { rewrite Hshape. by apply lookup_lt_Some in Hi. }
  exists ar_row. split; [done|].
  rewrite (store_data_lookup _ _ i c Hi Hlast).
  by rewrite (nth_lookup_Some _ _ _ _ Hrow).
Qed.

Lemma data_column_is_matrix_row_witness :
  exists d,
    read_cells None (Some Example.xml_types) [] Example.labels (Ok Example.cells)
    = Ok d
    /\ exists ar_row,
         ar_cell d !! 2%nat = Some ar_row
         /\ dict_get "position_y" (data d) = Some ar_row.
Proof.
  eexists. split; [reflexivity|].
  apply (data_column_is_matrix_row None (Some Example.xml_types) []
           Example.labels (Ok Example.cells) _ eq_refl 2%nat "position_y" eq_refl).
  intros [|[|[|[|[|[|j]]]]]] Hj; try lia; discriminate.
Defined.


Lemma foldl_add_column_units {A} (f : A -> string) s_unit l : forall st,
  (foldl (fun st a => add_column s_unit st (f a)) st l).2
  = update_all st.2 ((fun a => (f a, s_unit)) <$> l).
Proof.
  induction l as [|a l IH]; intros st; simpl; [done|]. by rewrite IH.
Qed.

Ltac fold_units :=
  match goal with
  | |- context [foldl (fun st a => add_column ?u st (@?f a)) ?st0 ?l] =>
      rewrite (foldl_add_column_units f u l st0)
  end.

Lemma update_all_app ds l1 l2 :
  update_all ds (l1 ++ l2) = update_all (update_all ds l1) l2.
Proof. unfold update_all. by rewrite foldl_app. Qed.

Lemma elem_of_concat {A} (x : A) (ls : list (list A)) :
  x ∈ concat ls <-> exists l, x ∈ l /\ l ∈ ls.
Proof.
  rewrite list_elem_of_In, in_concat. split.
  - intros (l & Hl & Hx). exists l. by rewrite !list_elem_of_In.
  - intros (l & Hx & Hl). exists l. by rewrite <- !list_elem_of_In.
Qed.

Lemma update_all_keys items : forall ds c,
  c ∈ dict_keys (update_all ds items) <-> c ∈ dict_keys ds \/ c ∈ items.*1.
Proof.
  unfold update_all.
  induction items as [|[k v] items IH]; intros ds c; simpl.
  - rewrite elem_of_nil. tauto.
  - rewrite IH, dict_update_keys, elem_of_cons. tauto.
Qed.

Lemma read_label_units ds_substrate ds_celltype substrates celltypes st x st' :
  values_sorted_by_int_key ds_substrate = Ok substrates ->
  values_sorted_by_int_key ds_celltype = Ok celltypes ->
  read_label ds_substrate ds_celltype st x = Ok st' ->
  st'.2 = update_all st.2 (unit_items substrates celltypes x).
Proof.
  intros Hs Hc. unfold read_label, unit_items, unit_keys, expand, convention_of.
  pose proof (values_sorted_length _ _ Hs) as Hls.
  pose proof (values_sorted_length _ _ Hc) as Hlc.
  destruct (is_in (text x) es_var_subs).
  { destruct (Nat.ltb_spec 0 (length ds_substrate)).
    - rewrite Hs. simpl. intros [= <-]. fold_units.
      destruct substrates; [simpl in *; lia|]. by rewrite <- list_fmap_compose.
    - intros [= <-]. fold_units.
      destruct substrates; [|simpl in *; lia].
      unfold by_index. by rewrite <- !list_fmap_compose. }
  destruct (is_in (text x) es_var_cell).
  { destruct (Nat.ltb_spec 0 (length ds_celltype)).
    - rewrite Hc. simpl. intros [= <-]. fold_units.
      destruct celltypes; [simpl in *; lia|]. by rewrite <- list_fmap_compose.
    - intros [= <-]. fold_units.
      destruct celltypes; [|simpl in *; lia].
      unfold by_index. by rewrite <- !list_fmap_compose. }
  destruct (is_in (text x) es_var_death).
  { intros [= <-]. fold_units.
    unfold by_index. by rewrite <- !list_fmap_compose. }
  destruct (is_in (text x) es_var_spatial).
  { by intros [= <-]. }
  by intros [= <-].
Qed.

Lemma read_labels_units ds_substrate ds_celltype substrates celltypes labels :
  values_sorted_by_int_key ds_substrate = Ok substrates ->
  values_sorted_by_int_key ds_celltype = Ok celltypes ->
  forall st st',
    for_in (read_label ds_substrate ds_celltype) st labels = Ok st' ->
    st'.2 = update_all st.2 (concat (unit_items substrates celltypes <$> labels)).
Proof.
  intros Hs Hc. induction labels as [|x labels IH]; intros st st'; simpl.
  - by intros [= <-].
  - destruct (read_label _ _ st x) as [st1|] eqn:E; [|done]. simpl.
    intros Hrest. rewrite (IH _ _ Hrest), update_all_app.
    by rewrite (read_label_units _ _ _ _ _ _ _ Hs Hc E).
Qed.

(** X5.  The unit dictionary of the label loop holds, for every label, its
    unit under each of the column names the label expands to when the label
    follows one of the four conventions, and under the label's own name
    otherwise, also where a plain label of width above one gives numbered
    columns; a later label overwrites an earlier one of the same key. *)
Theorem label_units ds_substrate ds_celltype substrates celltypes labels sch :
  values_sorted_by_int_key ds_substrate = Ok substrates ->
  values_sorted_by_int_key ds_celltype = Ok celltypes ->
  read_labels ds_substrate ds_celltype labels = Ok sch ->
  sch.2 = update_all [] (concat (unit_items substrates celltypes <$> labels))
  /\ (forall c,
        c ∈ dict_keys sch.2
        <-> exists x, x ∈ labels /\ c ∈ unit_keys substrates celltypes x)
  /\ (forall x, x ∈ labels -> convention_of (text x) = Plain ->
        text x ∈ dict_keys sch.2).
Proof.
  intros Hs Hc Hsch.
  pose proof (read_labels_units _ _ _ _ _ Hs Hc _ _ Hsch) as Hu. simpl in Hu.
  split; [done|].
  assert (Hkeys : forall c,
            c ∈ dict_keys sch.2
            <-> exists x, x ∈ labels /\ c ∈ unit_keys substrates celltypes x).
  { intros c. rewrite Hu, update_all_keys. unfold dict_keys at 1. simpl.
    rewrite elem_of_nil. split.
    - intros [[]|Hin]. apply list_elem_of_fmap in Hin as ([c' u] & -> & Hin).
      apply elem_of_concat in Hin as (items & Hin & Hitems).
      apply list_elem_of_fmap in Hitems as (x & -> & Hx).
      exists x. split; [done|]. unfold unit_items in Hin.
      apply list_elem_of_fmap in Hin as (c'' & [= -> _] & Hin). done.
    - intros (x & Hx & Hin). right.
      apply list_elem_of_fmap. exists (c, units x). split; [done|].
      apply elem_of_concat. exists (unit_items substrates celltypes x).
      split; [|by apply list_elem_of_fmap_2].
      unfold unit_items. by apply (list_elem_of_fmap_2 (fun c => (c, units x))). }
  split; [done|].
  intros x Hx Hplain. apply Hkeys. exists x. split; [done|].
  unfold unit_keys. rewrite Hplain. left.
Qed.

Lemma label_units_witness :
  exists sch,
    read_labels [("0", "oxygen")] []
      [ {| text := "position"; size := 3; units := "micron" |};
        {| text := "sample"; size := 2; units := "none" |} ] = Ok sch
    /\ "sample" ∈ dict_keys sch.2
    /\ ("position_x" ∈ dict_keys sch.2).
Proof.
  eexists. split; [reflexivity|].
  pose proof (label_units [("0", "oxygen")] [] ["oxygen"] []
                [ {| text := "position"; size := 3; units := "micron" |};
                  {| text := "sample"; size := 2; units := "none" |} ]
                _ eq_refl eq_refl eq_refl) as (_ & Hkeys & Hplain).
  split.
  - apply (Hplain {| text := "sample"; size := 2; units := "none" |});
      [right; left|reflexivity].
  - apply Hkeys.
    exists {| text := "position"; size := 3; units := "micron" |}.
    split; [left|]. left.
Defined.

(** X20.  The substrate table and the label loop together: for every
    list of declared substrates and every label list, the columns of a load
    are those of the labels with the declared substrate names, in their
    order of declaration, as substrate labels; no condition on the substrate
    table is left.  A per-substrate label then gives the columns
    [<substrate>_<label>], one per declared substrate; without
    microenvironment it gives [<label>_<index>]. *)
Theorem substrate_columns_in_declaration_order microenv names ds_celltype
    celltypes labels :
  values_sorted_by_int_key ds_celltype = Ok celltypes ->
  (exists ds_unit,
     read_labels (Substrate.read_substrates microenv names) ds_celltype labels
     = Ok (concat ((fun x => expand (if microenv then names else []) celltypes
                                    (text x) (size x)) <$> labels), ds_unit))
  /\ (forall name width,
        convention_of name = PerSubstrate ->
        expand (if microenv then names else []) celltypes name width
        = if microenv && negb (bool_decide (names = []))
          then (fun s => s +:+ "_" +:+ name) <$> names
          else by_index name width).
Proof.
  intros Hc. split.
  - assert (Hs : values_sorted_by_int_key (Substrate.read_substrates microenv names)
                 = Ok (if microenv then names else [])).
    { destruct microenv; [apply read_substrates_sorted|done]. }
    destruct (read_labels_expand _ _ _ _ labels Hs Hc ([], [])) as [u Hu].
    exists u. exact Hu.
  - intros name width Hconv. unfold expand. rewrite Hconv.
    destruct microenv; [|done]. destruct names; done.
Qed.

Lemma substrate_columns_in_declaration_order_witness :
  exists ds_unit,
    read_labels (Substrate.read_substrates true ["oxygen"; "glucose"]) []
      [ {| text := "ID"; size := 1; units := "none" |};
        {| text := "secretion_rates"; size := 2; units := "1/min" |} ]
    = Ok (["ID"; "oxygen_secretion_rates"; "glucose_secretion_rates"], ds_unit).
Proof.
  exact (proj1 (substrate_columns_in_declaration_order true ["oxygen"; "glucose"]
                  [] [] [ {| text := "ID"; size := 1; units := "none" |};
                          {| text := "secretion_rates"; size := 2;
                             units := "1/min" |} ] eq_refl)).
Defined.

End more_cell_facts.

(** ** The unit dictionary *)

Section unit_facts.
Import Notions.
Import Cell Units Spec.















End unit_facts.

(** ** Axes of a loaded mesh *)

Section axis_facts.
Import Mesh.
Open Scope Q_scope.

Lemma insert_unique_elem x l y :
  y ∈ insert_unique x l -> y = x \/ y ∈ l.
Proof.
  induction l as [|a l IH]; simpl.
  - intros ->%list_elem_of_singleton. by left.
  - destruct (x ?= a).
    + by right.
    + intros [->|H]%elem_of_cons; [by left|by right].
    + intros [->|H]%elem_of_cons; [right; left|].
      destruct (IH H) as [->|?]; [by left|right; by right].
Qed.

Lemma insert_unique_repr x l :
  (exists y, y ∈ insert_unique x l /\ y == x)
  /\ forall a, a ∈ l -> a ∈ insert_unique x l.
Proof.
  induction l as [|a l [IHx IHl]]; simpl.
  - split; [exists x; split; [left|reflexivity]|]. intros a Ha. by apply elem_of_nil in Ha.
  - destruct (x ?= a) eqn:E.
    + apply Qeq_alt in E. split; [|done]. exists a. split; [left|by symmetry].
    + split; [exists x; split; [left|reflexivity]|]. intros b Hb. by right.
    + split.
      * destruct IHx as (y & Hy & Hyx). exists y. split; [by right|done].
      * intros b [->|Hb]%elem_of_cons; [left|right; by apply IHl].
Qed.

Lemma insert_unique_sorted x l :
  StronglySorted Qlt l -> StronglySorted Qlt (insert_unique x l).
Proof.
  induction 1 as [|a l Hl IH Ha]; simpl.
  - repeat constructor.
  - destruct (x ?= a) eqn:E.
    + by constructor.
    + apply Qlt_alt in E. constructor; [by constructor|].
      constructor; [done|].
      eapply Forall_impl; [exact Ha|]. intros b Hb. simpl in Hb. lra.
    + apply Qgt_alt in E. constructor; [done|].
      apply Forall_forall. intros b Hb.
      apply insert_unique_elem in Hb as [->|Hb]; [done|].
      by eapply Forall_forall in Ha.
Qed.

Lemma np_unique_sorted a : StronglySorted Qlt (np_unique a).
Proof.
  induction a as [|x a IH]; simpl; [constructor|]. by apply insert_unique_sorted.
Qed.

Lemma np_unique_elem a y : y ∈ np_unique a -> y ∈ a.
Proof.
  revert y. induction a as [|x a IH]; intros y; simpl; [done|].
  intros [->|H]%insert_unique_elem; [left|right; by apply IH].
Qed.

Lemma np_unique_repr a x : x ∈ a -> exists y, y ∈ np_unique a /\ y == x.
Proof.
  induction a as [|x' a IH]; [by intros ?%elem_of_nil|].
  simpl. intros [->|Hx]%elem_of_cons.
  - apply insert_unique_repr.
  - destruct (IH Hx) as (y & Hy & Hyx). exists y. split; [|done].
    by apply insert_unique_repr.
Qed.

Lemma foldl_Qmin_le x l : foldl Qmin x l <= x /\ Forall (fun y => foldl Qmin x l <= y) l.
Proof.
  revert x. induction l as [|a l IH]; intros x; simpl.
  - split; [lra|constructor].
  - destruct (IH (Qmin x a)) as [H1 H2].
    pose proof (Q.le_min_l x a). pose proof (Q.le_min_r x a).
    split; [lra|]. constructor; [lra|done].
Qed.

Lemma foldl_Qmax_le x l : x <= foldl Qmax x l /\ Forall (fun y => y <= foldl Qmax x l) l.
Proof.
  revert x. induction l as [|a l IH]; intros x; simpl.
  - split; [lra|constructor].
  - destruct (IH (Qmax x a)) as [H1 H2].
    pose proof (Q.le_max_l x a). pose proof (Q.le_max_r x a).
    split; [lra|]. constructor; [lra|done].
Qed.

Lemma axis_range_bounds ar tr :
  axis_range ar = Ok tr -> Forall (fun v => tr.1 <= v <= tr.2) ar.
Proof.
  destruct ar as [|x l]; [done|]. simpl. intros [= <-]. simpl.
  destruct (foldl_Qmin_le x l) as [H1 H2], (foldl_Qmax_le x l) as [H3 H4].
  constructor; [lra|].
  apply Forall_forall. intros v Hv.
  eapply Forall_forall in H2, H4; [|exact Hv..]. lra.
Qed.

Lemma foldl_Qmin_elem x l : foldl Qmin x l ∈ x :: l.
Proof.
  revert x. induction l as [|a l IH]; intros x; simpl; [left|].
  specialize (IH (Qmin x a)). apply elem_of_cons in IH as [->|IH].
  - unfold Qmin, GenericMinMax.gmin. destruct (x ?= a); [left|left|right; left].
  - right. by right.
Qed.

Lemma foldl_Qmax_elem x l : foldl Qmax x l ∈ x :: l.
Proof.
  revert x. induction l as [|a l IH]; intros x; simpl; [left|].
  specialize (IH (Qmax x a)). apply elem_of_cons in IH as [->|IH].
  - unfold Qmax, GenericMinMax.gmax. destruct (x ?= a); [left|right; left|left].
  - right. by right.
Qed.

Lemma axis_range_elem ar tr : axis_range ar = Ok tr -> tr.1 ∈ ar /\ tr.2 ∈ ar.
Proof.
  destruct ar as [|x l]; [done|]. simpl. intros [= <-]. simpl.
  split; [apply foldl_Qmin_elem|apply foldl_Qmax_elem].
Qed.

End axis_facts.

(** ** The mesh and the voxel index *)

Section mesh_more.
Import Notions.
Import Mesh.
Open Scope Q_scope.

Lemma axis_ok_unique a tr :
  axis_range (np_unique a) = Ok tr -> axis_ok (np_unique a) tr (voxel_range (np_unique a)).
Proof.
  intros Hr. destruct (axis_range_elem _ _ Hr) as [H1 H2].
  repeat split; try done.
  - apply np_unique_sorted.
  - by apply axis_range_bounds.
  - by eapply voxel_range_max.
Qed.

(** X7.  Each axis of a loaded mesh lists its centers in strictly
    increasing order, its range is the least and the greatest of them, and
    its index range goes from 0 to the number of centers less one.  The
    centers of the first axis are values of the first coordinate row, and
    every value of that row is equal to one of them. *)
Theorem mesh_axes_ranges x y z ar m :
  read_mesh x y z ar = Ok m ->
  let '(ar_m, ar_n, ar_p) := mnp_axis m in
  let '(tr_m, tr_n, tr_p) := mnp_range m in
  let '(tr_i, tr_j, tr_k) := ijk_range m in
  axis_ok ar_m tr_m tr_i /\ axis_ok ar_n tr_n tr_j /\ axis_ok ar_p tr_p tr_k
  /\ (forall v, v ∈ ar_m -> v ∈ x)
  /\ (forall v, v ∈ x -> exists u, u ∈ ar_m /\ u == v).
Proof.
  intros (tr_m & tr_n & tr_p & Hm & Hn & Hp & _ & -> & -> & -> & _)%read_mesh_inv.
  split; [by apply axis_ok_unique|]. split; [by apply axis_ok_unique|].
  split; [by apply axis_ok_unique|]. split.
  - apply np_unique_elem.
  - apply np_unique_repr.
Qed.

Lemma mesh_axes_ranges_witness :
  exists m, read_mesh [0; 10; 20; 0; 10; 20] [0; 0; 0; 10; 10; 10]
                      [0; 0; 0; 0; 0; 0] [1000] = Ok m
    /\ axis_ok (mnp_axis m).1.1 (mnp_range m).1.1 (ijk_range m).1.1
    /\ (mnp_axis m).1.1 = [0; 10; 20].
Proof.
  eexists. split; [reflexivity|]. split; [|reflexivity].
  exact (proj1 (mesh_axes_ranges [0; 10; 20; 0; 10; 20] [0; 0; 0; 10; 10; 10]
                  [0; 0; 0; 0; 0; 0] [1000] _ eq_refl)).
Defined.

End mesh_more.

(** ** The mesh accessors *)

Section mesh_access_facts.
Import Notions.
Import Float64 Mesh MeshAccess.
Open Scope Q_scope.

Lemma lt_spec a b : reflect (a < b) (lt a b).
Proof.
  unfold lt. destruct (Qle_bool b a) eqn:E; constructor.
  - apply Qle_bool_iff in E. lra.
  - destruct (Qlt_le_dec a b) as [|H]; [done|].
    apply Qle_bool_iff in H. congruence.
Qed.

Lemma is_in_mesh_no_halt xyz_range x y z :
  exists b, is_in_mesh xyz_range x y z false = Ok b
            /\ (b = true <-> in_box xyz_range x y z).
Proof.
  destruct xyz_range as [[tr_x tr_y] tr_z]. unfold is_in_mesh, in_box. simpl.
  eexists. split; [done|].
  destruct (lt_spec x tr_x.1), (lt_spec tr_x.2 x), (lt_spec y tr_y.1),
    (lt_spec tr_y.2 y), (lt_spec z tr_z.1), (lt_spec tr_z.2 z); simpl;
    split; try done; try (intros; lra).
Qed.

(** X11.  [is_in_mesh] answers [True] exactly for the positions within the
    bounding box, its bounds included.  For a position outside it answers
    [False] when [halt] is off and exits when [halt] is on; within the box
    [halt] changes nothing. *)
Theorem is_in_mesh_box xyz_range x y z :
  (in_box xyz_range x y z ->
   forall halt, is_in_mesh xyz_range x y z halt = Ok true)
  /\ (~ in_box xyz_range x y z ->
      is_in_mesh xyz_range x y z false = Ok false
      /\ is_in_mesh xyz_range x y z true = Raise SystemExit).
Proof.
  destruct (is_in_mesh_no_halt xyz_range x y z) as (b & Hb & Hbox).
  destruct xyz_range as [[tr_x tr_y] tr_z]. unfold is_in_mesh in *. simpl in *.
  injection Hb as Hb. split.
  - intros Hin halt. apply Hbox in Hin. rewrite Hb, Hin. by destruct halt.
  - intros Hout. destruct b; [by destruct Hout; apply Hbox|].
    rewrite Hb. done.
Qed.

Lemma is_in_mesh_box_witness :
  is_in_mesh ((0, 20), (0, 10), (0, 0)) 9 4 0 true = Ok true
  /\ is_in_mesh ((0, 20), (0, 10), (0, 0)) 31 4 0 true = Raise SystemExit.
Proof.
  split.
  - apply (proj1 (is_in_mesh_box ((0, 20), (0, 10), (0, 0)) 9 4 0)).
    unfold in_box, Qle. simpl. lia.
  - apply (proj2 (is_in_mesh_box ((0, 20), (0, 10), (0, 0)) 31 4 0)).
    unfold in_box, Qle. simpl. lia.
Defined.



(** X12.  On a loaded mesh [get_voxel_ijk] without the bounds check gives
    three indices exactly when the load stores voxel indices for an agent at
    that position, that is when the three float quotients are finite;
    otherwise it raises [OverflowError] or [ValueError].  With the check it
    gives the same indices for a position within the bounding box and
    [None] for one outside.  The indices are not cut to the index range:
    the voxel indices stored for an agent at that position are these
    indices cast to int64 and cut to the range. *)
Theorem get_voxel_ijk_unclamped x y z ar m xyz_range px py pz :
  read_mesh x y z ar = Ok m ->
  (forall i j k,
     get_voxel_ijk m xyz_range px py pz false = Ok (Some (i, j, k)) ->
     (in_box xyz_range px py pz ->
      get_voxel_ijk m xyz_range px py pz true = Ok (Some (i, j, k)))
     /\ let '(tr_i, tr_j, tr_k) := ijk_range m in
        voxel_ijk m (px, py, pz)
        = Ok (Z.max 0 (Z.min tr_i.2 (astype_int i)),
              Z.max 0 (Z.min tr_j.2 (astype_int j)),
              Z.max 0 (Z.min tr_k.2 (astype_int k))))
  /\ (~ in_box xyz_range px py pz ->
      get_voxel_ijk m xyz_range px py pz true = Ok None)
  /\ (forall ijk,
        voxel_ijk m (px, py, pz) = Ok ijk ->
        exists i j k,
          get_voxel_ijk m xyz_range px py pz false = Ok (Some (i, j, k)))
  /\ (forall e,
        voxel_ijk m (px, py, pz) = Raise e ->
        get_voxel_ijk m xyz_range px py pz false = Raise OverflowError
        \/ get_voxel_ijk m xyz_range px py pz false = Raise ValueError).
Proof.
  intros Hm.
  pose proof (voxel_ijk_quotients x y z ar m px py pz Hm) as H.
  unfold get_voxel_ijk.
  destruct (mnp_spacing m) as [[dm dn] dp].
  destruct (mnp_range m) as [[tr_m tr_n] tr_p].
  destruct (ijk_range m) as [[tr_i tr_j] tr_k].
  destruct H as (_ & _ & _ & ->).
  destruct (is_in_mesh_no_halt xyz_range px py pz) as (b & Hb & Hbox).
  rewrite Hb. simpl.
  assert (Hnone : ~ in_box xyz_range px py pz ->
                  (if b
                   then i ← int_round (fdiv (fsub px tr_m.1) dm);
                        j ← int_round (fdiv (fsub py tr_n.1) dn);
                        k ← int_round (fdiv (fsub pz tr_p.1) dp);
                        Ok (Some (i, j, k))
                   else Ok None) = Ok None).
  { intros Hout. destruct b; [by destruct Hout; apply Hbox|done]. }
  destruct (fdiv (fsub px tr_m.1) dm) as [qi| |]; simpl;
    [|split; [by intros ??? [=]|split; [done|split; [by intros ? [=]|]]];
      intros e _; by (left + right)..].
  destruct (fdiv (fsub py tr_n.1) dn) as [qj| |]; simpl;
    [|split; [by intros ??? [=]|split; [done|split; [by intros ? [=]|]]];
      intros e _; by (left + right)..].
  destruct (fdiv (fsub pz tr_p.1) dp) as [qk| |]; simpl;
    [|split; [by intros ??? [=]|split; [done|split; [by intros ? [=]|]]];
      intros e _; by (left + right)..].
  split; [|split; [done|split; [by eauto|done]]].
  intros i j k [= <- <- <-]. split; [|done].
  intros Hin. apply Hbox in Hin as ->. done.
Qed.

Lemma get_voxel_ijk_unclamped_witness :
  exists m,
    read_mesh [0; 10; 20] [0; 10] [0] [1000] = Ok m
    /\ get_voxel_ijk m ((-5, 25), (-5, 15), (-5, 5)) 31 4 0 false
       = Ok (Some (3, 0, 0)%Z)
    /\ get_voxel_ijk m ((-5, 25), (-5, 15), (-5, 5)) 31 4 0 true = Ok None
    /\ voxel_ijk m (31, 4, 0) = Ok (2, 0, 0)%Z.
Proof.
  eexists.
  pose proof (get_voxel_ijk_unclamped [0; 10; 20] [0; 10] [0] [1000] _
                ((-5, 25), (-5, 15), (-5, 5)) 31 4 0 eq_refl)
    as (Hget & Hout & _).
  split; [reflexivity|]. split; [vm_compute; reflexivity|].
  split.
  - apply Hout. unfold in_box, Qle. simpl. lia.
  - exact (proj2 (Hget 3 0 0 ltac:(vm_compute; reflexivity))%Z).
Defined.



End mesh_access_facts.

(** ** The filters of the data frame accessors *)

Section frame_more.
Import Notions.
Import Frame.

Lemma position_Some s ls : s ∈ ls -> is_Some (position s ls).
Proof.
  induction ls as [|s' ls IH]; [by intros ?%elem_of_nil|].
  simpl. destruct (String.eqb_spec s s') as [->|Hne]; [by eexists|].
  intros [?|Hin]%elem_of_cons; [done|].
  destruct (IH Hin) as [i ->]. by eexists.
Qed.

Lemma position_elem s ls i : position s ls = Some i -> s ∈ ls.
Proof.
  revert i. induction ls as [|s' ls IH]; intros i; [done|]. simpl.
  destruct (String.eqb_spec s s') as [->|Hne]; [left|].
  destruct (position s ls) eqn:E; [|done]. intros _. right. by eapply IH.
Qed.

Lemma loc_column_Some df s : s ∈ columns df -> exists se, loc_column df s = Ok se.
Proof.
  intros [i Hi]%position_Some. unfold loc_column. rewrite Hi. by eexists.
Qed.

Lemma for_in_few_values df values l : forall es : gset string,
  (forall s, s ∈ l -> s ∈ columns df) ->
  exists es',
    for_in (fun (es_delete : gset string) (s_column : string) =>
              se ← loc_column df s_column;
              if (Z.of_nat (length (py_set se)) <? values)%Z
              then Ok (es_delete ∪ {[ s_column ]})
              else Ok es_delete) es l = Ok es'
    /\ forall c, c ∈ es' <-> c ∈ es \/ (c ∈ l /\ few_values df values c).
Proof.
  induction l as [|s l IH]; intros es Hl; simpl.
  - exists es. split; [done|]. intros c. rewrite elem_of_nil. tauto.
  - destruct (loc_column_Some df s) as [se Hse]; [apply Hl; left|].
    rewrite Hse. simpl.
    destruct (Z.ltb_spec (Z.of_nat (length (py_set se))) values) as [Hlt|Hge]; simpl.
    + destruct (IH (es ∪ {[s]})) as [es' [-> Hes']].
      { intros s' Hs'. apply Hl. by right. }
      exists es'. split; [done|]. intros c. rewrite Hes', elem_of_cons.
      rewrite elem_of_union, elem_of_singleton. split.
      * intros [[?| ->]|[? ?]]; [by left| |right; split; [by right|done]].
        right. split; [by left|]. by exists se.
      * intros [?|[[->|?] ?]]; [left; by left|left; by right|right; done].
    + destruct (IH es) as [es' [-> Hes']].
      { intros s' Hs'. apply Hl. by right. }
      exists es'. split; [done|]. intros c. rewrite Hes', elem_of_cons. split.
      * intros [?|[? ?]]; [by left|right; split; [by right|done]].
      * intros [?|[[->|?] Hfew]]; [by left| |right; done].
        destruct Hfew as (se' & Hse' & Hlt). rewrite Hse in Hse'.
        injection Hse' as <-. lia.
Qed.

Lemma filter_delete_spec es_coor df values drop keep :
  exists es_delete,
    filter_delete es_coor df values drop keep = Ok es_delete
    /\ forall c,
         c ∈ es_delete
         <-> c ∈ columns df /\ (c ∉ es_coor)
             /\ ((if (0 <? size keep)%nat then c ∉ keep else c ∈ drop)
                 \/ (1 < values /\ few_values df values c)).
Proof.
  unfold filter_delete.
  set (es_attribute := list_to_set (columns df) ∖ es_coor : gset string).
  assert (Hattr : forall c, c ∈ es_attribute <-> c ∈ columns df /\ (c ∉ es_coor)).
  { intros c. unfold es_attribute. rewrite elem_of_difference, elem_of_list_to_set. done. }
  set (es0 := if (0 <? size keep)%nat then es_attribute ∖ keep
              else es_attribute ∩ drop).
  assert (H0 : forall c, c ∈ es0 <-> c ∈ columns df /\ (c ∉ es_coor)
                 /\ (if (0 <? size keep)%nat then c ∉ keep else c ∈ drop)).
  { intros c. unfold es0. destruct (0 <? size keep)%nat.
    - rewrite elem_of_difference, Hattr. tauto.
    - rewrite elem_of_intersection, Hattr. tauto. }
  destruct (Z.ltb_spec 1 values) as [Hv|Hv].
  - destruct (for_in_few_values df values (elements es_attribute) es0) as [es' [-> Hes']].
    { intros s Hs. apply elem_of_elements, Hattr in Hs. tauto. }
    exists es'. split; [done|]. intros c. rewrite Hes', H0, elem_of_elements, Hattr.
    tauto.
  - exists es0. split; [done|]. intros c. rewrite H0. split; [tauto|].
    intros (? & ? & [?|[? _]]); [tauto|lia].
Qed.

Lemma sort_values_ok_columns ls_key df df' :
  sort_values ls_key df = Ok df' ->
  columns df' = columns df /\ index_name df' = index_name df
  /\ Permutation (rows df') (rows df).
Proof.
  unfold sort_values. destruct (traverse _ _) as [keys|]; [|done]. simpl.
  intros [= <-]. simpl. split; [done|]. split; [done|].
  induction (rows df) as [|r l IH]; simpl; [done|].
  rewrite <- IH at 2. generalize (foldr (insert_row (fun r => (fun k : row -> value => k r) <$> keys)) [] l).
  intros l'. induction l' as [|r' l' IH']; simpl; [done|].
  destruct (keys_leb _ _); [done|]. rewrite IH'. apply perm_swap.
Qed.

Lemma traverse_raise {A B} (f : A -> result B) l e :
  traverse f l = Raise e -> exists x, x ∈ l /\ f x = Raise e.
Proof.
  induction l as [|x l IH]; simpl; [done|].
  destruct (f x) as [y|e'] eqn:E; simpl.
  - destruct (traverse f l) as [ys|e']; simpl; [done|].
    intros [= ->]. destruct (IH eq_refl) as (x' & Hx' & Hf).
    exists x'. split; [by right|done].
  - intros [= ->]. exists x. split; [left|done].
Qed.

Lemma sort_values_no_exit ls_key df : sort_values ls_key df <> Raise SystemExit.
Proof.
  unfold sort_values. destruct (traverse _ _) as [keys|e] eqn:E; simpl; [done|].
  intros [= ->]. apply traverse_raise in E as (s & _ & Hs).
  unfold sort_key in Hs.
  destruct (position s (columns df)), (String.eqb s (index_name df)); done.
Qed.

Lemma size_pos_nonempty (X : gset string) : (0 <? size X)%nat = true <-> X <> ∅.
Proof.
  rewrite Nat.ltb_lt. split.
  - intros H ->. rewrite size_empty in H. lia.
  - intros H. destruct (decide (size X = 0%nat)) as [H0|H0]; [|lia].
    apply size_empty_iff in H0. exfalso. apply H. by apply leibniz_equiv.
Qed.

Lemma filter_keep_all (es : gset string) (ls : list string) :
  (forall c, c ∈ ls -> c ∉ es) ->
  filter (fun s => bool_decide (s ∉ es) = true) ls = ls.
Proof.
  induction ls as [|s ls IH]; intros Hes; [done|].
  rewrite filter_cons_True.
  - f_equal. apply IH. intros c Hc. apply Hes. by right.
  - apply bool_decide_eq_true. apply Hes. left.
Qed.

(** X14.  [get_cell_df] exits exactly when both [keep] and [drop] are
    given.  Otherwise every column it returns is a column of the stored
    table; with [keep] given it is a coordinate column or one of [keep]; a
    column of [drop] is returned only if it is a coordinate column; with
    [values] above one no column other than a coordinate column with fewer
    distinct values than asked for is returned.  Without any filter the
    columns are those of the stored table in sorted order. *)
Theorem get_cell_df_filters df_cell values drop keep :
  (get_cell_df df_cell values drop keep = Raise SystemExit
   <-> keep <> ∅ /\ drop <> ∅)
  /\ forall df,
       get_cell_df df_cell values drop keep = Ok df ->
       (forall c, c ∈ columns df ->
          c ∈ columns df_cell
          /\ (keep <> ∅ -> c ∈ es_coor_cell \/ c ∈ keep)
          /\ (c ∈ drop -> c ∈ es_coor_cell)
          /\ (1 < values -> c ∈ es_coor_cell \/ ~ few_values df_cell values c))
       /\ (values <= 1 -> keep = ∅ -> drop = ∅ ->
           columns df = sorted (columns df_cell)).
Proof.
  unfold get_cell_df.
  destruct (filter_delete_spec es_coor_cell df_cell values drop keep)
    as (es_delete & -> & Hdel).
  simpl. split.
  - destruct ((0 <? size keep)%nat) eqn:Hk, ((0 <? size drop)%nat) eqn:Hd; simpl.
    + split; [|done]. intros _. split; by apply size_pos_nonempty.
    + split; [by intros ?%sort_values_no_exit|].
      intros [_ Hd']. apply size_pos_nonempty in Hd'. congruence.
    + split; [by intros ?%sort_values_no_exit|].
      intros [Hk' _]. apply size_pos_nonempty in Hk'. congruence.
    + split; [by intros ?%sort_values_no_exit|].
      intros [Hk' _]. apply size_pos_nonempty in Hk'. congruence.
  - intros df Hdf.
    destruct ((0 <? size keep)%nat && (0 <? size drop)%nat) eqn:Hboth; [done|].
    apply sort_values_ok_columns in Hdf as (Hcols & _ & _). simpl in Hcols.
    split.
    + intros c Hc. rewrite Hcols, elem_of_sorted in Hc.
      change (c ∈ columns (Frame.drop es_delete df_cell)) in Hc.
      apply columns_drop in Hc as [Hin Hnot].
      rewrite Hdel in Hnot. split; [done|].
      destruct (decide (c ∈ es_coor_cell)) as [|Hcoor]; [tauto|].
      split; [|split].
      * intros Hk%size_pos_nonempty. rewrite Hk in Hnot.
        destruct (decide (c ∈ keep)); [tauto|]. exfalso. apply Hnot. tauto.
      * intros Hd. exfalso. apply Hnot. split; [done|]. split; [done|]. left.
        destruct ((0 <? size keep)%nat) eqn:Hk; [|done].
        simpl in Hboth. assert (Hne : drop <> ∅) by (intros ->; set_solver).
        apply size_pos_nonempty in Hne. congruence.
      * intros Hv. right. intros Hfew. apply Hnot. tauto.
    + intros Hv -> ->. rewrite Hcols. f_equal. simpl.
      apply filter_keep_all. intros c Hc. rewrite Hdel.
      rewrite size_empty. simpl. intros (_ & _ & [?|[? _]]); [set_solver|lia].
Qed.

Lemma get_cell_df_filters_witness :
  get_cell_df Example.df_cell 1 {[ "dead" ]} {[ "time" ]} = Raise SystemExit
  /\ exists df,
       get_cell_df Example.df_cell 2 ∅ {[ "dead" ]} = Ok df
       /\ "time" ∈ columns Example.df_cell
       /\ ("time" ∈ es_coor_cell \/ "time" ∈ ({[ "dead" ]} : gset string)).
Proof.
  split.
  - apply (proj1 (get_cell_df_filters Example.df_cell 1 {[ "dead" ]} {[ "time" ]})).
    split; apply non_empty_singleton_L.
  - eexists. split; [reflexivity|].
    edestruct (proj2 (get_cell_df_filters Example.df_cell 2 ∅ {[ "dead" ]}))
      as [Hcol _]; [reflexivity|].
    destruct (Hcol "time") as (Hin & Hkeep & _).
    + vm_compute. do 1 right. left.
    + split; [exact Hin|]. apply Hkeep. apply non_empty_singleton_L.
Defined.

End frame_more.

(** ** The rows of the data frame accessors *)

Section frame_rows.
Import Notions.
Import Frame.

Lemma value_leb_total a b : value_leb a b = false -> value_leb b a = true.
Proof.
  destruct a, b; simpl; try done.
  - intros H. apply Qle_bool_iff. destruct (Qlt_le_dec r r0) as [Hlt|Hle].
    + exfalso. apply Qlt_le_weak, Qle_bool_iff in Hlt. congruence.
    + done.
  - intros H%Z.leb_gt. apply Z.leb_le. lia.
  - unfold String.leb. rewrite (String.compare_antisym s0 s).
    destruct (s ?= s0)%string; done.
  - by destruct b0, b.
Qed.

Lemma index_le_total r r' : keys_leb [r.1] [r'.1] = false -> index_le r' r.
Proof.
  unfold index_le. simpl. destruct (value_eqb r.1 r'.1); [done|].
  intros H%value_leb_total. rewrite H. by destruct (value_eqb r'.1 r.1).
Qed.

Lemma insert_row_sorted r l :
  Sorted index_le l -> Sorted index_le (insert_row (fun r => [r.1]) r l).
Proof.
  induction 1 as [|r' l Hl IH Hr']; cbn [insert_row].
  - repeat constructor.
  - destruct (keys_leb [r.1] [r'.1]) eqn:E.
    + constructor; [by constructor|]. by constructor.
    + constructor; [done|].
      destruct l as [|r'' l]; cbn [insert_row].
      * constructor. by apply index_le_total.
      * destruct (keys_leb [r.1] [r''.1]).
        -- constructor. by apply index_le_total.
        -- constructor. by inversion Hr'.
Qed.

Lemma sort_values_index df df' :
  sort_values [index_name df] df = Ok df' ->
  Sorted index_le (rows df') /\ Permutation (rows df') (rows df).
Proof.
  intros Hsort. split;
    [|apply sort_values_ok_columns in Hsort as (_ & _ & Hperm); exact Hperm].
  revert Hsort. unfold sort_values. simpl. unfold sort_key.
  rewrite String.eqb_refl.
  destruct (position _ _); [done|]. simpl. intros [= <-]. simpl.
  induction (rows df) as [|r l IH]; simpl; [constructor|].
  by apply insert_row_sorted.
Qed.

(** X15.  [get_cell_df] returns the agents of the stored table, each once:
    the index labels are a rearrangement of the stored ones, the rows are in
    increasing order of the index [ID], and no filter changes their
    number. *)
Theorem get_cell_df_rows df_cell values drop keep df :
  index_name df_cell = "ID" ->
  get_cell_df df_cell values drop keep = Ok df ->
  Permutation (rows df).*1 (rows df_cell).*1
  /\ Sorted index_le (rows df)
  /\ length (rows df) = length (rows df_cell).
Proof.
  intros Hid. unfold get_cell_df.
  destruct (_ && _); [done|].
  destruct (filter_delete _ _ _ _ _) as [es_delete|]; [|done]. simpl.
  intros Hsort.
  rewrite <- Hid in Hsort.
  change (index_name df_cell)
    with (index_name (sort_columns (Frame.drop es_delete df_cell))) in Hsort.
  apply sort_values_index in Hsort as [Hsorted Hperm].
  assert (Hidx : (rows (sort_columns (Frame.drop es_delete df_cell))).*1
                 = (rows df_cell).*1).
  { simpl. rewrite <- !list_fmap_compose. done. }
  split; [|split].
  - rewrite <- Hidx. by apply fmap_Permutation.
  - done.
  - rewrite (Permutation_length Hperm). simpl. by rewrite !length_fmap.
Qed.

Lemma get_cell_df_rows_witness :
  exists df,
    get_cell_df Example.df_cell 2 ∅ {[ "dead" ]} = Ok df
    /\ Sorted index_le (rows df)
    /\ length (rows df) = 3%nat.
Proof.
  eexists. split; [reflexivity|].
  pose proof (get_cell_df_rows Example.df_cell 2 ∅ {[ "dead" ]} _
                eq_refl eq_refl) as (_ & Hsorted & Hlen).
  split; [exact Hsorted|exact Hlen].
Defined.







End frame_rows.

(** ** Errors and composition of the graph parser *)

Section graph_more.
Import Graph Spec.

Lemma int_digits_raise s : forall acc prev e,
  int_digits acc prev s = Raise e -> e = ValueError.
Proof.
  induction s as [|c s IH]; intros acc prev e; simpl.
  - destruct prev; [done|]. by intros [= <-].
  - destruct (Ascii.eqb c "_").
    + destruct prev; [apply IH|by intros [= <-]].
    + destruct (digit_of c); [apply IH|by intros [= <-]].
Qed.

Lemma py_int_raise s e : py_int s = Raise e -> e = ValueError.
Proof.
  unfold py_int. destruct (int_rstrip (int_lstrip s)) as [|c r].
  - apply int_digits_raise.
  - destruct (Ascii.eqb_spec c "+") as [->|H1].
    + apply int_digits_raise.
    + destruct (Ascii.eqb_spec c "-") as [->|H2].
      * destruct (int_digits 0 false r) eqn:E; [done|]. simpl.
        intros [= <-]. by eapply int_digits_raise.
      * intros H. assert (Hd : int_digits 0 false (String c r) = Raise e).
        { revert H. destruct c as [[] [] [] [] [] [] [] []]; try done. }
        by eapply int_digits_raise.
Qed.

Lemma traverse_py_int_raise l e : traverse py_int l = Raise e -> e = ValueError.
Proof.
  induction l as [|s l IH]; simpl; [done|].
  destruct (py_int s) eqn:E; simpl.
  - destruct (traverse py_int l); simpl; [done|]. intros [= <-]. by apply IH.
  - intros [= <-]. by eapply py_int_raise.
Qed.

Lemma parse_line_raise s_line e : parse_line s_line = Raise e -> e = ValueError.
Proof.
  unfold parse_line.
  destruct (split ":" (strip s_line)) as [|s_key [|s_value [|]]];
    try (by intros [= <-]).
  destruct (is_empty (strip s_value)); simpl.
  - destruct (py_int s_key) eqn:E; simpl; [done|].
    intros [= <-]. by eapply py_int_raise.
  - destruct (traverse py_int _) eqn:E; simpl.
    + destruct (py_int s_key) eqn:E'; simpl; [done|].
      intros [= <-]. by eapply py_int_raise.
    + intros [= <-]. by eapply traverse_py_int_raise.
Qed.

Lemma parse_line_colons s_line :
  length (split ":" (strip s_line)) <> 2%nat -> parse_line s_line = Raise ValueError.
Proof.
  unfold parse_line.
  destruct (split ":" (strip s_line)) as [|s_key [|s_value [|]]]; simpl; try done.
Qed.

Lemma for_in_ok_each {A S} (body : S -> A -> result S) l : forall st st',
  for_in body st l = Ok st' ->
  forall x, x ∈ l -> exists st0 st1, body st0 x = Ok st1.
Proof.
  induction l as [|y l IH]; intros st st'; simpl.
  - intros _ x Hx. by apply elem_of_nil in Hx.
  - destruct (body st y) as [st1|] eqn:E; [|done]. simpl.
    intros Hrest x [->|Hx]%elem_of_cons; [by eauto|]. by eapply IH.
Qed.

Lemma for_in_raise {A S} (body : S -> A -> result S) l : forall st e,
  for_in body st l = Raise e -> exists st0 x, x ∈ l /\ body st0 x = Raise e.
Proof.
  induction l as [|y l IH]; intros st e; simpl; [done|].
  destruct (body st y) as [st1|e'] eqn:E; simpl.
  - intros (st0 & x & Hx & Hb)%IH. exists st0, x. split; [by right|done].
  - intros [= ->]. exists st, y. split; [left|done].
Qed.

(** X17.  On the lines of a file that it could open, the graph file parser
    fails with [ValueError] and no other exception; it fails whenever a
    line, stripped, does not hold exactly one colon, and so on every blank
    line. *)
Theorem graphfile_parser_errors lines :
  (forall e, graphfile_parser lines = Raise e -> e = ValueError)
  /\ (forall s_line, s_line ∈ lines ->
        length (split ":" (strip s_line)) <> 2%nat ->
        graphfile_parser lines = Raise ValueError)
  /\ (forall s_line, s_line ∈ lines -> blank s_line = true ->
        graphfile_parser lines = Raise ValueError).
Proof.
  assert (Hraise : forall e, graphfile_parser lines = Raise e -> e = ValueError).
  { intros e (g & s & _ & Hb)%for_in_raise.
    destruct (parse_line s) eqn:E; [done|]. simpl in Hb. injection Hb as <-.
    by eapply parse_line_raise. }
  assert (Hbad : forall s_line, s_line ∈ lines ->
            length (split ":" (strip s_line)) <> 2%nat ->
            graphfile_parser lines = Raise ValueError).
  { intros s Hs Hlen. destruct (graphfile_parser lines) as [g|e] eqn:E.
    - destruct (for_in_ok_each _ _ _ _ E s Hs) as (g0 & g1 & Hb).
      by rewrite (parse_line_colons s Hlen) in Hb.
    - by rewrite (Hraise e eq_refl). }
  split; [done|]. split; [done|].
  intros s Hs Hblank. apply (Hbad s Hs).
  rewrite <- is_empty_strip in Hblank. by destruct (strip s).
Qed.

Lemma graphfile_parser_errors_witness :
  graphfile_parser ["5: 2,7" +:+ String "010" ""; String "010" ""]
  = Raise ValueError
  /\ graphfile_parser ["5: 2,7: 3"] = Raise ValueError.
Proof.
  split.
  - apply (proj2 (proj2 (graphfile_parser_errors
                           ["5: 2,7" +:+ String "010" ""; String "010" ""]))
             (String "010" "")); [right; left|reflexivity].
  - apply (proj1 (proj2 (graphfile_parser_errors ["5: 2,7: 3"])) "5: 2,7: 3");
      [left|]. simpl. lia.
Defined.

Lemma for_in_union lines : forall h g : gmap Z (gset Z),
  for_in (fun dei_graph s_line =>
            kv ← parse_line s_line; Ok (<[kv.1 := kv.2]> dei_graph))
         (h ∪ g) lines
  = (fun r => r ∪ g) <$>
    for_in (fun dei_graph s_line =>
              kv ← parse_line s_line; Ok (<[kv.1 := kv.2]> dei_graph))
           h lines.
Proof.
  induction lines as [|s lines IH]; intros h g; simpl; [done|].
  destruct (parse_line s) as [[k v]|]; simpl; [|done].
  rewrite insert_union_l. apply IH.
Qed.

Lemma for_in_app {A S} (body : S -> A -> result S) l1 l2 st :
  for_in body st (l1 ++ l2) = st1 ← for_in body st l1; for_in body st1 l2.
Proof.
  revert st. induction l1 as [|x l1 IH]; intros st; simpl; [done|].
  destruct (body st x); simpl; [apply IH|done].
Qed.

(** X18.  Parsing two blocks of lines one after the other gives the
    entries of the second block over those of the first; the first failure
    is the failure of the whole. *)
Theorem graphfile_parser_app lines1 lines2 :
  (forall g1 g2,
     graphfile_parser lines1 = Ok g1 -> graphfile_parser lines2 = Ok g2 ->
     graphfile_parser (lines1 ++ lines2) = Ok (g2 ∪ g1))
  /\ (forall e, graphfile_parser lines1 = Raise e ->
        graphfile_parser (lines1 ++ lines2) = Raise e)
  /\ (forall g1 e,
        graphfile_parser lines1 = Ok g1 -> graphfile_parser lines2 = Raise e ->
        graphfile_parser (lines1 ++ lines2) = Raise e).
Proof.
  unfold graphfile_parser. rewrite for_in_app. split; [|split].
  - intros g1 g2 -> H2. simpl.
    rewrite <- (left_id_L ∅ (∪) g1), for_in_union, H2. simpl.
    by rewrite (left_id_L ∅ (∪) g1).
  - by intros e ->.
  - intros g1 e -> H2. simpl.
    rewrite <- (left_id_L ∅ (∪) g1), for_in_union, H2. done.
Qed.

Lemma graphfile_parser_app_witness :
  exists g1 g2,
    graphfile_parser ["5: 2,7"; "6: 5"] = Ok g1
    /\ graphfile_parser ["5: 9"] = Ok g2
    /\ graphfile_parser (["5: 2,7"; "6: 5"] ++ ["5: 9"]) = Ok (g2 ∪ g1).
Proof.
  eexists. eexists. split; [reflexivity|]. split; [reflexivity|].
  exact (proj1 (graphfile_parser_app ["5: 2,7"; "6: 5"] ["5: 9"]) _ _
           eq_refl eq_refl).
Defined.

End graph_more.

(** ** Path and file name *)

Section path_facts.
Import Path Spec.

Lemma length_String c s : String.length (String c s) = S (String.length s).
Proof. reflexivity. Qed.

Lemma replace_slashes_cons c c' s :
  replace_slashes (String c (String c' s))
  = if Ascii.eqb c "/" && Ascii.eqb c' "/" then String "/" (replace_slashes s)
    else String c (replace_slashes (String c' s)).
Proof. reflexivity. Qed.

Lemma has_slashes_cons c c' s :
  has_slashes (String c (String c' s))
  = (Ascii.eqb c "/" && Ascii.eqb c' "/") || has_slashes (String c' s).
Proof. reflexivity. Qed.

Lemma but_last_cons c c' s :
  but_last (String c (String c' s)) = String c (but_last (String c' s)).
Proof. reflexivity. Qed.

Lemma ends_with_slash_cons c c' s :
  ends_with_slash (String c (String c' s)) = ends_with_slash (String c' s).
Proof. reflexivity. Qed.

Lemma replace_slashes_length s :
  (String.length (replace_slashes s) <= String.length s)%nat
  /\ (has_slashes s = true ->
      (String.length (replace_slashes s) < String.length s)%nat).
Proof.
  remember (String.length s) as n eqn:Hn. revert s Hn.
  induction n as [n IH] using lt_wf_ind. intros s ->.
  destruct s as [|c [|c' s]]; [simpl; split; [lia|done]..|].
  rewrite replace_slashes_cons, has_slashes_cons.
  destruct (Ascii.eqb c "/" && Ascii.eqb c' "/") eqn:E.
  - destruct (IH (String.length s)) with (s := s) as [H1 _];
      [rewrite !length_String; lia|done|].
    rewrite !length_String. split; [lia|]. intros _. lia.
  - destruct (IH (String.length (String c' s))) with (s := String c' s)
      as [H1 H2]; [rewrite !length_String; lia|done|].
    cbn [orb]. rewrite (length_String c), (length_String c (String c' s)).
    split; [lia|]. intros H. specialize (H2 H). lia.
Qed.

Lemma squeeze_no_slashes n : forall s,
  (String.length s <= n)%nat -> has_slashes (squeeze n s) = false.
Proof.
  induction n as [|n IH]; intros s Hlen; simpl.
  - destruct s; [done|]. simpl in Hlen. lia.
  - destruct (has_slashes s) eqn:E; [|done].
    apply IH. destruct (replace_slashes_length s) as [_ H]. specialize (H E). lia.
Qed.

Lemma but_last_no_slashes s : has_slashes s = false -> has_slashes (but_last s) = false.
Proof.
  remember (String.length s) as n eqn:Hn. revert s Hn.
  induction n as [n IH] using lt_wf_ind. intros s ->.
  destruct s as [|c [|c' s]]; [done..|].
  rewrite has_slashes_cons, but_last_cons. intros [H1 H2]%orb_false_elim.
  specialize (IH (String.length (String c' s))
                 ltac:(rewrite !length_String; lia) (String c' s) eq_refl H2).
  destruct s as [|c'' s]; [done|].
  rewrite but_last_cons in *. rewrite has_slashes_cons, H1. done.
Qed.

(** A path without double slash that ends with a slash loses the slash
    with its last character. *)
Lemma but_last_no_trailing s :
  has_slashes s = false -> ends_with_slash s = true ->
  ends_with_slash (but_last s) = false.
Proof.
  remember (String.length s) as n eqn:Hn. revert s Hn.
  induction n as [n IH] using lt_wf_ind. intros s ->.
  destruct s as [|c [|c' s]]; [done..|].
  rewrite has_slashes_cons, ends_with_slash_cons, but_last_cons.
  intros [H1 H2]%orb_false_elim Hend.
  destruct s as [|c'' s].
  - simpl in *. rewrite Hend, andb_true_r in H1. done.
  - specialize (IH (String.length (String c' (String c'' s)))
                   ltac:(rewrite !length_String; lia)
                   (String c' (String c'' s)) eq_refl H2 Hend).
    rewrite but_last_cons in *. by rewrite ends_with_slash_cons.
Qed.

Lemma ends_with_slash_short s :
  ends_with_slash s = true -> (String.length s <= 1)%nat -> s = "/".
Proof.
  destruct s as [|c [|c' s]]; simpl; [done| |lia].
  intros H%Ascii.eqb_eq _. by subst.
Qed.

Lemma split_cons sep s : exists h t, split sep s = h :: t.
Proof.
  destruct s as [|c s]; simpl; [by eauto|].
  destruct (Ascii.eqb c sep); [by eauto|].
  destruct (split sep s); by eauto.
Qed.

(** Joining what [split] gives restores the string. *)
Lemma join_split sep s : join (String sep "") (split sep s) = s.
Proof.
  induction s as [|c s IH]; [done|]. simpl.
  destruct (split_cons sep s) as (h & t & Hs). rewrite Hs in *.
  destruct (Ascii.eqb_spec c sep) as [->|Hne].
  - change (join (String sep "") ("" :: h :: t))
      with (String sep (join (String sep "") (h :: t))).
    by rewrite IH.
  - destruct t as [|h' t].
    + simpl in *. by rewrite IH.
    + change (join (String sep "") (String c h :: h' :: t))
        with (String c (join (String sep "") (h :: h' :: t))).
      by rewrite IH.
Qed.

Lemma split_parts_free sep s : Forall (fun x => has_char sep x = false) (split sep s).
Proof.
  induction s as [|c s IH]; simpl; [by repeat constructor|].
  destruct (split_cons sep s) as (h & t & Hs). rewrite Hs in *.
  inversion_clear IH as [|? ? Hh Ht].
  destruct (Ascii.eqb_spec c sep) as [->|Hne].
  - constructor; [done|]. by constructor.
  - constructor; [|done]. simpl. apply Ascii.eqb_neq in Hne. by rewrite Hne.
Qed.

Lemma split_two sep s : has_char sep s = true -> (2 <= length (split sep s))%nat.
Proof.
  induction s as [|c s IH]; simpl; [done|].
  destruct (split_cons sep s) as (h & t & Hs). rewrite Hs in *.
  destruct (Ascii.eqb c sep); simpl; [lia|]. intros H. specialize (IH H).
  simpl in IH. lia.
Qed.

Lemma pop_last_snoc ls : forall l f,
  ls <> [] -> pop_last ls = (l, f) -> ls = (l ++ [f])%list.
Proof.
  induction ls as [|s ls IH]; intros l f Hne; [done|].
  destruct ls as [|s' ls].
  - simpl. by intros [= <- <-].
  - change (pop_last (s :: s' :: ls))
      with (let '(l, x) := pop_last (s' :: ls) in (s :: l, x)).
    destruct (pop_last (s' :: ls)) as [l' x] eqn:Hp. intros [= <- <-].
    simpl. f_equal. by apply IH.
Qed.

Lemma append_assoc (a b c : string) : (a +:+ b) +:+ c = a +:+ b +:+ c.
Proof.
  induction a as [|x a IH]; [done|].
  change (String x ((a +:+ b) +:+ c) = String x (a +:+ b +:+ c)). by rewrite IH.
Qed.

Lemma join_snoc sep l f :
  l <> [] -> join sep (l ++ [f]) = join sep l +:+ sep +:+ f.
Proof.
  induction l as [|s l IH]; [done|]. intros _.
  destruct l as [|s' l].
  - done.
  - change (join sep ((s :: s' :: l) ++ [f]))
      with (s +:+ sep +:+ join sep ((s' :: l) ++ [f])).
    rewrite IH by done.
    change (join sep (s :: s' :: l)) with (s +:+ sep +:+ join sep (s' :: l)).
    by rewrite !append_assoc.
Qed.

(** X19.  The path of a snapshot never holds two slashes in a row and ends
    in a slash only when it is the root [/]; the loop that removes the
    double slashes ends.  When the file name is given with a directory and
    the output path is left at [.], the file name is what follows the last
    slash, holds no slash, and the directory, a slash and the file name
    give back what was passed; otherwise the file name is the name passed
    with the backslashes turned into slashes. *)
Theorem path_normalised xmlfile output_path :
  let '(s_path, s_file) := path_and_file xmlfile output_path in
  has_slashes s_path = false
  /\ (ends_with_slash s_path = true -> s_path = "/")
  /\ (has_char "/" xmlfile = true -> output_path = "." ->
      has_char "/" s_file = false
      /\ exists s_dir, s_dir +:+ "/" +:+ s_file = xmlfile)
  /\ (has_char "/" xmlfile = false \/ output_path <> "." ->
      s_file = replace_backslash xmlfile).
Proof.
  unfold path_and_file.
  set (norm := fun p : string =>
         if ends_with_slash (squeeze (String.length p) p)
            && (1 <? String.length (squeeze (String.length p) p))%nat
         then but_last (squeeze (String.length p) p)
         else squeeze (String.length p) p).
  assert (Hnorm : forall p, has_slashes (norm p) = false
                            /\ (ends_with_slash (norm p) = true -> norm p = "/")).
  { intros p. unfold norm.
    pose proof (squeeze_no_slashes (String.length p) p (Nat.le_refl _)) as Hs.
    destruct (ends_with_slash (squeeze _ p)) eqn:He; simpl.
    - destruct (Nat.ltb_spec 1 (String.length (squeeze (String.length p) p))).
      + split; [by apply but_last_no_slashes|].
        by rewrite but_last_no_trailing.
      + split; [done|]. intros _. by apply ends_with_slash_short.
    - split; [done|]. by rewrite He. }
  destruct (has_char "/" xmlfile && String.eqb output_path ".") eqn:Hc.
  - apply andb_prop in Hc as [Hx Ho]. apply String.eqb_eq in Ho. subst output_path.
    destruct (pop_last (split "/" xmlfile)) as [ls f] eqn:Hp.
    fold (norm (join "/" ls)).
    destruct (Hnorm (join "/" ls)) as [H1 H2].
    split; [done|]. split; [done|]. split; [|by intros [?|?]; congruence].
    intros _ _.
    destruct (split_cons "/" xmlfile) as (h & t & Hs).
    pose proof (split_two "/" xmlfile Hx) as Hlen.
    apply pop_last_snoc in Hp; [|by rewrite Hs].
    pose proof (split_parts_free "/" xmlfile) as Hfree.
    rewrite Hp in Hfree, Hlen. apply Forall_app in Hfree as [_ Hf].
    inversion_clear Hf as [|? ? Hf' _]. split; [done|].
    exists (join "/" ls).
    transitivity (join "/" (split "/" xmlfile)); [|apply join_split].
    rewrite Hp. rewrite join_snoc; [done|].
    intros ->. simpl in Hlen. lia.
  - fold (norm output_path). destruct (Hnorm output_path) as [H1 H2].
    split; [done|]. split; [done|]. split; [|done].
    intros Hx Ho. rewrite Hx, Ho in Hc. done.
Qed.

Lemma path_normalised_witness :
  has_char "/" (path_and_file "out//run/output00000001.xml" ".").2 = false
  /\ (exists s_dir,
        s_dir +:+ "/" +:+ (path_and_file "out//run/output00000001.xml" ".").2
        = "out//run/output00000001.xml")
  /\ (path_and_file "output00000001.xml" "out//run/").2 = "output00000001.xml".
Proof.
  split; [|split].
  - exact (proj1 (proj1 (proj2 (proj2
             (path_normalised "out//run/output00000001.xml" ".")))
             eq_refl eq_refl)).
  - exact (proj2 (proj1 (proj2 (proj2
             (path_normalised "out//run/output00000001.xml" ".")))
             eq_refl eq_refl)).
  - exact (proj2 (proj2 (proj2
             (path_normalised "output00000001.xml" "out//run/")))
             (or_introl eq_refl)).
Defined.

End path_facts.
